(** * lib/transaction.js: the transaction wrapper around one connection

    A shallow embedding of [TransactionDatabase] and of the functions
    declared in its body, followed by the properties established for them.

    Reading of the instance fields.  The functions of the file are written
    against the fields [transdb.queue], [transdb._lock],
    [transdb.currentTransaction], [transdb.db], [transdb._exec],
    [transdb._wait], [transdb._runQueue] and [transdb.beginTransaction],
    while the constructor only declares locals of those names (lines 25-29,
    64, 83, 98) and, as written, cannot run to its end (module [Ctor]
    below).  The controller part of this development reads every such
    field as the constructor local of the same name, with the initial value
    the local is given: [queue = []], [_lock = 0],
    [currentTransaction = null], [db = opts.database] and [_exec] the
    connection's own [exec] (line 37).

    The driver is asynchronous: a dispatched call or an issued command
    returns at once and its callback fires in a later turn of the event
    loop.  Such later turns are the [Event]s of the model. *)

From Stdlib Require Import List ZArith String Bool Lia.
Import ListNotations.
Open Scope string_scope.
Open Scope list_scope.
Open Scope Z_scope.

(** ** Values handed around by the wrapper *)

(** Objects of the driver that a wrapped method can target. *)
Inductive ObjRef :=
| Connection
| Statement (id : nat).

Inductive Value :=
| VUndefined
| VNull
| VNum (z : Z)
| VStr (s : string)
| VError (msg : string)
| VObj (o : ObjRef)
| VFun (f : Func)

(** The functions that occur as callbacks. *)
with Func :=
| FUser (id : nat)               (* a function of the application *)
| FDummy                         (* dummyCallback, line 180 *)
| FNoop                          (* function() {}, line 44 *)
| FNewCallback (orig : Value)    (* newCallback, line 208, with its originalCallback *)
| FCommitFailed (cb : Value).    (* function() { cb(error); }, line 132 *)

(** [if (v)] *)
Definition truthy (v : Value) : bool :=
  match v with
  | VUndefined | VNull => false
  | VNum z => negb (z =? 0)
  | VStr s => negb (String.eqb s "")
  | VError _ | VObj _ | VFun _ => true
  end.

(** [v instanceof Function] *)
Definition isFunction (v : Value) : bool :=
  match v with VFun _ => true | _ => false end.

(** What a [throw] carries. *)
Inductive Exn :=
| ReferenceError (name : string)
| TypeError (msg : string)
| Error (msg : string).

(** ** State of one wrapper *)

(** The three functions given to [_wait] (lines 153, 127, 144), each with
    the variables it closes over; [t] numbers the activation of
    [beginTransaction] that created it. *)
Inductive WaitCont :=
| KBegin (t : nat) (callback : Value)
| KCommit (t : nat) (cb : Value)
| KRollback (t : nat) (cb : Value).

(** The three callbacks given to [_exec] (lines 155, 129, 146). *)
Inductive ExecCont :=
| EBegin (t : nat) (callback : Value)
| ECommit (t : nat) (cb : Value)
| ERollback (t : nat) (cb : Value).

(** The two shapes of queue entry that the file builds: line 102
    ([type: 'transaction', object: self, method: 'beginTransaction']) and
    line 235 ([type: 'lock'] or ['simple'], a method of a driver object). *)
Inductive PendingOp :=
| Begin (args : list Value)
| Op (locking : bool) (object : ObjRef) (method : string) (args : list Value).

Definition item_type (item : PendingOp) : string :=
  match item with
  | Begin _ => "transaction"
  | Op true _ _ _ => "lock"
  | Op false _ _ _ => "simple"
  end.

Definition isBegin (item : PendingOp) : bool :=
  match item with Begin _ => true | Op _ _ _ _ => false end.

(** What leaves the wrapper, in order. *)
Inductive Effect :=
| Dispatched (object : ObjRef) (method : string) (args : list Value)
| Exec (sql : string) (k : ExecCont)
| Called (id : nat) (args : list Value)
| Emitted (event : string) (payload : Value).

Record State := mkState {
  _lock : Z;
  queue : list PendingOp;
  currentTransaction : option ObjRef;
  (* the variable [finished] of each activation of beginTransaction *)
  finished : list bool;
  (* the activation whose closures are the current values of the
     properties commit and rollback of the handle; the handle is
     [self.db] for every transaction (line 112) *)
  installed : option nat;
  (* the property currentTransaction of the connection object itself,
     which line 43 reads through [this]; no statement of the file
     assigns it *)
  db_currentTransaction : option ObjRef;
  (* pending setTimeout(check, delay) *)
  timers : list (WaitCont * Z);
  out : list Effect
}.

Definition init : State :=
  mkState 0 [] None [] None None [] [].

Definition set_lock (n : Z) (st : State) : State :=
  mkState n (queue st) (currentTransaction st) (finished st) (installed st)
          (db_currentTransaction st) (timers st) (out st).

Definition set_queue (q : list PendingOp) (st : State) : State :=
  mkState (_lock st) q (currentTransaction st) (finished st) (installed st)
          (db_currentTransaction st) (timers st) (out st).

Definition set_currentTransaction (c : option ObjRef) (st : State) : State :=
  mkState (_lock st) (queue st) c (finished st) (installed st)
          (db_currentTransaction st) (timers st) (out st).

Definition set_finished (f : list bool) (st : State) : State :=
  mkState (_lock st) (queue st) (currentTransaction st) f (installed st)
          (db_currentTransaction st) (timers st) (out st).

Definition set_installed (i : option nat) (st : State) : State :=
  mkState (_lock st) (queue st) (currentTransaction st) (finished st) i
          (db_currentTransaction st) (timers st) (out st).

Definition set_timers (ts : list (WaitCont * Z)) (st : State) : State :=
  mkState (_lock st) (queue st) (currentTransaction st) (finished st)
          (installed st) (db_currentTransaction st) ts (out st).

Definition emit (e : Effect) (st : State) : State :=
  mkState (_lock st) (queue st) (currentTransaction st) (finished st)
          (installed st) (db_currentTransaction st) (timers st)
          (out st ++ [e]).

(** A call either returns or throws; what it did to the state stays done
    in both cases. *)
Inductive Outcome :=
| Normal (st : State)
| Thrown (e : Exn) (st : State).

Definition bind (o : Outcome) (f : State -> Outcome) : Outcome :=
  match o with
  | Normal st => f st
  | Thrown e st => Thrown e st
  end.

Notation "o >>= f" := (bind o f) (at level 50, left associativity).

Definition final (o : Outcome) : State :=
  match o with Normal st | Thrown _ st => st end.

(** ** The functions of the constructor body *)

Definition lockMethods : list string :=
  ["exec"; "run"; "get"; "all"; "each"; "map"; "finalize"; "reset"].

Definition prohibitedMethods : list string :=
  ["emit"; "addListener"; "setMaxListeners"; "on"; "once"; "removeListener";
   "removeAllListeners"; "listeners"; "prepare"].

Definition mem (s : string) (l : list string) : bool :=
  existsb (String.eqb s) l.

(** [_exec(sql, k)]: the command goes to the driver, [k] fires later. *)
Definition _exec (sql : string) (k : ExecCont) (st : State) : Outcome :=
  Normal (emit (Exec sql k) st).

(** The function given to [_wait], applied as [check] applies it (line 67:
    [callback()], no argument), so that its parameter [err] is undefined
    and the branches [if (err)] of lines 128, 145 and 154 are not taken. *)
Definition wait_callback (k : WaitCont) (st : State) : Outcome :=
  match k with
  | KBegin t callback => _exec "BEGIN;" (EBegin t callback) st
  | KCommit t cb => _exec "COMMIT;" (ECommit t cb) st
  | KRollback t cb => _exec "ROLLBACK;" (ERollback t cb) st
  end.

(** The delay of line 69, in milliseconds. *)
Definition poll_delay : Z := 1.

(** [check], lines 65-71. *)
Definition check (k : WaitCont) (st : State) : Outcome :=
  if _lock st =? 0 then wait_callback k st
  else Normal (set_timers (timers st ++ [(k, poll_delay)]) st).

(** [_wait], lines 64-73. *)
Definition _wait (k : WaitCont) (st : State) : Outcome :=
  check k st.

Definition is_finished (t : nat) (st : State) : bool :=
  nth t (finished st) false.

Definition msg_commit : string :=
  "Transaction is already commit and cannot do commit().".

Definition msg_rollback : string :=
  "Transaction is already finished and cannot rollback().".

(** The handler of lines 42-47.  The connection calls it with [this] the
    connection, so line 43 reads the connection's own property.  Line 44 is
    [rollback], lines 142-150, at [cb = function() {}]: calling that [cb]
    does nothing. *)
Definition on_db_error (st : State) : Outcome :=
  match db_currentTransaction st with
  | None => Normal st
  | Some _ =>
      match installed st with
      | None => Thrown (TypeError "rollback is not a function") st
      | Some t =>
          if is_finished t st then Normal st
          else _wait (KRollback t (VFun FNoop)) st
      end
  end.

(** [transactionDatabase.db.emit('error', e)], line 181, as far as the
    file's own listener goes: the call is recorded and the handler of
    lines 42-47 runs.  What the other listeners of the application do
    with the event, on the connection and, through the forwarding of
    lines 250-253, on the wrapper, is not part of the model. *)
Definition db_emit_error (e : Value) (st : State) : Outcome :=
  on_db_error (emit (Emitted "error" e) st).

(** Application of a callback to arguments. *)
Fixpoint invoke (f : Func) (args : list Value) (st : State) : Outcome :=
  match f with
  | FUser id => Normal (emit (Called id args) st)
  | FDummy =>
      (* lines 180-182 *)
      if truthy (hd VUndefined args) then db_emit_error (hd VUndefined args) st
      else Normal st
  | FNoop => Normal st
  | FNewCallback orig =>
      (* lines 208-212 *)
      if _lock st <? 1 then Thrown (Error "Locks are not balanced") st
      else
        let st1 := set_lock (_lock st - 1) st in
        match orig with
        | VFun g => invoke g args st1
        | _ => Thrown (TypeError "not a function") st1
        end
  | FCommitFailed cb =>
      (* line 133: no variable [error] is in scope *)
      Thrown (ReferenceError "error") st
  end.

Definition call (v : Value) (args : list Value) (st : State) : Outcome :=
  match v with
  | VFun f => invoke f args st
  | _ => Thrown (TypeError "not a function") st
  end.

(** [beginTransaction], lines 98-160. *)
Definition beginTransaction (args : list Value) (st : State) : Outcome :=
  match currentTransaction st with
  | Some _ => Normal (set_queue (queue st ++ [Begin args]) st)
  | None =>
      let t := List.length (finished st) in
      let st1 := set_finished (finished st ++ [false]) st in
      let st2 := set_currentTransaction (Some Connection) st1 in
      let st3 := set_installed (Some t) st2 in
      _wait (KBegin t (hd VUndefined args)) st3
  end.

(** [item.object[item.method].apply(item.object, item.args)], line 90. *)
Definition apply_item (item : PendingOp) (st : State) : Outcome :=
  match item with
  | Begin args => beginTransaction args st
  | Op _ object method args => Normal (emit (Dispatched object method args) st)
  end.

Definition lock_if (b : bool) (st : State) : State :=
  if b then set_lock (_lock st + 1) st else st.

(** The loop of [_runQueue], lines 84-95, on the entries still queued.  A
    driver call does not touch the queue, so the entries the loop will
    shift next are the rest of the list. *)
Fixpoint runQueue_loop (q : list PendingOp) (st : State) : Outcome :=
  match q with
  | [] => Normal st
  | item :: rest =>
      let st1 := set_queue rest st in
      let st2 := lock_if (String.eqb (item_type item) "lock") st1 in
      apply_item item st2 >>= fun st3 =>
      if String.eqb (item_type item) "transaction" then Normal st3
      else runQueue_loop rest st3
  end.

Definition _runQueue (st : State) : Outcome :=
  runQueue_loop (queue st) st.

Fixpoint set_nth {A} (n : nat) (x : A) (l : list A) : list A :=
  match n, l with
  | _, [] => []
  | O, _ :: l' => x :: l'
  | S n', y :: l' => y :: set_nth n' x l'
  end.

(** [finishTransaction], lines 116-121, of activation [t]. *)
Definition finishTransaction (t : nat) (e : Value) (cb1 : Value)
  (st : State) : Outcome :=
  let st1 := set_finished (set_nth t true (finished st)) st in
  let st2 := set_currentTransaction None st1 in
  _runQueue st2 >>= call cb1 [e].

(** [tr.rollback] as assigned by activation [t], lines 142-150. *)
Definition rollback (t : nat) (cb : Value) (st : State) : Outcome :=
  if is_finished t st then call cb [VError msg_rollback] st
  else _wait (KRollback t cb) st.

(** [tr.commit] as assigned by activation [t], lines 123-140. *)
Definition commit (t : nat) (cb : Value) (st : State) : Outcome :=
  if is_finished t st then call cb [VError msg_commit] st
  else _wait (KCommit t cb) st.

(** A call [tr.rollback(cb)] / [tr.commit(cb)] on the handle: whatever
    function the property holds at that moment. *)
Definition handle_rollback (cb : Value) (st : State) : Outcome :=
  match installed st with
  | None => Thrown (TypeError "rollback is not a function") st
  | Some t => rollback t cb st
  end.

Definition handle_commit (cb : Value) (st : State) : Outcome :=
  match installed st with
  | None => Thrown (TypeError "commit is not a function") st
  | Some t => commit t cb st
  end.

(** The callbacks of [_exec], applied to the driver's [err]. *)
Definition exec_callback (k : ExecCont) (err : Value) (st : State) : Outcome :=
  match k with
  | EBegin t callback =>
      (* lines 155-158 *)
      if truthy err then call callback [err] st
      else call callback [VNull; VObj Connection] st
  | ECommit t cb =>
      (* lines 129-138 *)
      if truthy err then handle_rollback (VFun (FCommitFailed cb)) st
      else finishTransaction t VNull cb st
  | ERollback t cb =>
      (* lines 146-148 *)
      finishTransaction t err cb st
  end.

(** The function returned by [wrapDbMethod(transactionDatabase, object,
    method)], lines 186-242. *)

(** [args[args.length - 1]] and [args[args.length - 2]] *)
Definition last1 (args : list Value) : Value :=
  last args VUndefined.

Definition last2 (args : list Value) : Value :=
  last (removelast args) VUndefined.

Definition dummyCallback : Value := VFun FDummy.

(** Lines 192-204. *)
Definition normalize_each (args : list Value) : list Value :=
  if (Z.of_nat (List.length args) <=? 2)
     || (negb (isFunction (last1 args)) && negb (isFunction (last2 args)))
  then args ++ [dummyCallback; dummyCallback]
  else if isFunction (last1 args) && negb (isFunction (last2 args))
  then args ++ [dummyCallback]
  else args.

(** Lines 206-222. *)
Definition hijack (args : list Value) : list Value :=
  if (0 <? Z.of_nat (List.length args)) && isFunction (last1 args)
  then removelast args ++ [VFun (FNewCallback (last1 args))]
  else args ++ [VFun (FNewCallback dummyCallback)].

Definition wrapped_args (method : string) (args : list Value) : list Value :=
  if mem method lockMethods then
    hijack (if String.eqb method "each" then normalize_each args else args)
  else args.

Definition wrapDbMethod (object : ObjRef) (method : string)
  (args : list Value) (st : State) : Outcome :=
  let locking := mem method lockMethods in
  let args' := wrapped_args method args in
  match currentTransaction st with
  | None =>
      let st1 := lock_if locking st in
      Normal (emit (Dispatched object method args') st1)
  | Some _ =>
      Normal (set_queue (queue st ++ [Op locking object method args']) st)
  end.

(** ** Turns of the event loop *)

Inductive Event :=
| EvCall (object : ObjRef) (method : string) (args : list Value)
| EvBegin (args : list Value)
| EvCommit (cb : Value)
| EvRollback (cb : Value)
| EvTimer (i : nat)
| EvExecDone (k : ExecCont) (err : Value)
| EvInvoke (f : Func) (args : list Value)
| EvDbError (e : Value).

Fixpoint remove_nth {A} (n : nat) (l : list A) : list A :=
  match n, l with
  | _, [] => []
  | O, _ :: l' => l'
  | S n', x :: l' => x :: remove_nth n' l'
  end.

(** The timer [i] fires: [check] of line 65 runs again. *)
Definition timer_fire (i : nat) (st : State) : Outcome :=
  match nth_error (timers st) i with
  | None => Normal st
  | Some (k, _) => check k (set_timers (remove_nth i (timers st)) st)
  end.

Definition step (ev : Event) (st : State) : Outcome :=
  match ev with
  | EvCall object method args => wrapDbMethod object method args st
  | EvBegin args => beginTransaction args st
  | EvCommit cb => handle_commit cb st
  | EvRollback cb => handle_rollback cb st
  | EvTimer i => timer_fire i st
  | EvExecDone k err => exec_callback k err st
  | EvInvoke f args => invoke f args st
  | EvDbError e => on_db_error st
  end.

(** A run: whatever a turn throws goes to the event loop, and the next
    turn starts from the state the throwing turn left. *)
Fixpoint run (evs : list Event) (st : State) : State :=
  match evs with
  | [] => st
  | ev :: evs' => run evs' (final (step ev st))
  end.

(** ** The constructor as it is written, lines 23-47 and 165-174

    Here nothing is read into the fields: an object has the properties
    that were assigned to it and those of its prototype chain. *)
Module Ctor.

Inductive Proto :=
| ObjectProto                 (* a plain object *)
| EventEmitterProto           (* an object made by events.EventEmitter *)
| TransactionDatabaseProto.   (* an object made by new TransactionDatabase *)

#[local] Set Warnings "-register-all".
Inductive JsVal :=
| Undefined
| Null
| Prim                                      (* a number, string or boolean *)
| Fn (throws : option Exn)                  (* a function, and what a call of it does *)
| Obj (proto : Proto) (props : list (string * JsVal)).

Inductive Result (A : Type) :=
| Ok (a : A)
| Throw (e : Exn).
Arguments Ok {A} a.
Arguments Throw {A} e.

Definition rbind {A B} (r : Result A) (f : A -> Result B) : Result B :=
  match r with
  | Ok a => f a
  | Throw e => Throw e
  end.

Notation "x <- r ;; k" := (rbind r (fun x => k))
  (at level 61, r at next level, right associativity).

Fixpoint lookup (name : string) (props : list (string * JsVal))
  : option JsVal :=
  match props with
  | [] => None
  | (n, v) :: rest => if String.eqb n name then Some v else lookup name rest
  end.

(** The members of a prototype chain.  The file sets no prototype for
    [TransactionDatabase] (line 23 is a plain function declaration and
    nothing makes it inherit), so its instances have those of
    Object.prototype only, none of which is enumerable or named below.
    Those of EventEmitter.prototype are the methods of Node's emitter,
    all enumerable. *)
Definition proto_props (p : Proto) : list (string * JsVal) :=
  match p with
  | EventEmitterProto =>
      map (fun n => (n, Fn None))
          ["setMaxListeners"; "getMaxListeners"; "emit"; "addListener";
           "on"; "prependListener"; "once"; "prependOnceListener";
           "removeListener"; "off"; "removeAllListeners"; "listeners";
           "rawListeners"; "listenerCount"; "eventNames"]
  | ObjectProto | TransactionDatabaseProto => []
  end.

(** [v.name] *)
Definition get (v : JsVal) (name : string) : Result JsVal :=
  match v with
  | Undefined | Null =>
      Throw (TypeError (String.append "Cannot read property " name))
  | Prim => Ok Undefined
  | Fn _ => if String.eqb name "bind" then Ok (Fn None) else Ok Undefined
  | Obj p props =>
      match lookup name props with
      | Some x => Ok x
      | None =>
          match lookup name (proto_props p) with
          | Some x => Ok x
          | None => Ok Undefined
          end
      end
  end.

(** [f(...)] *)
Definition apply (f : JsVal) : Result JsVal :=
  match f with
  | Fn None => Ok Undefined
  | Fn (Some e) => Throw e
  | _ => Throw (TypeError "not a function")
  end.

(** [v.name(...)] *)
Definition call_method (v : JsVal) (name : string) : Result JsVal :=
  f <- get v name ;; apply f.

Definition instanceofFunction (v : JsVal) : bool :=
  match v with Fn _ => true | _ => false end.

Definition truthy (v : JsVal) : bool :=
  match v with Undefined | Null => false | _ => true end.

(** The properties a [for (... in source)] visits. *)
Definition enumerate (source : JsVal) : list (string * JsVal) :=
  match source with
  | Obj p props => props ++ proto_props p
  | _ => []
  end.

(** The loop of lines 166-170.  No [wrapMethod] is declared in the
    file, so evaluating line 168 throws. *)
Fixpoint wrap_loop (ps : list (string * JsVal)) : Result unit :=
  match ps with
  | [] => Ok tt
  | (method, v) :: rest =>
      if instanceofFunction v && negb (mem method prohibitedMethods)
      then Throw (ReferenceError "wrapMethod")
      else wrap_loop rest
  end.

(** [events.EventEmitter.call(target)], line 172: the fields of an
    emitter are set on [target]; its prototype stays what it was. *)
Definition EventEmitter_call (target : JsVal) : JsVal :=
  match target with
  | Obj p props => Obj p (("_events", Obj ObjectProto []) :: props)
  | v => v
  end.

(** [o.name = v] in strict mode (line 1): a TypeError on undefined, on
    null and on a primitive. *)
Definition set_property (o : JsVal) (name : string) : Result unit :=
  match o with
  | Undefined | Null =>
      Throw (TypeError (String.append "Cannot set property " name))
  | Prim => Throw (TypeError (String.append "Cannot create property " name))
  | Fn _ | Obj _ _ => Ok tt
  end.

(** [interceptEmit(self, emitter, handler)], lines 248-254: line 249
    reads [emitter.emit], line 250 assigns it. *)
Definition interceptEmit (self emitter handler : JsVal) : Result unit :=
  oldEmit <- get emitter "emit" ;; set_property emitter "emit".

(** [wrapObject(transactionDatabase, target, source)], lines 165-174. *)
Definition wrapObject (transactionDatabase target source : JsVal)
  : Result unit :=
  _ <- wrap_loop (enumerate source) ;;
  let target' := EventEmitter_call target in
  emit_ <- get target' "emit" ;;
  handler <- call_method emit_ "bind" ;;
  interceptEmit target' source handler.

(** Lines 27-38: [db], [db.serialize()] and the choice of [_exec]. *)
Definition prelude (opts : JsVal) : Result JsVal :=
  db <- get opts "database" ;;
  _ <- call_method db "serialize" ;;
  exec <- get opts "exec" ;;
  if truthy exec && instanceofFunction exec then Ok (Fn None)
  else (e <- get db "exec" ;; call_method e "bind").

(** The object that [new] makes and binds to [this]. *)
Definition fresh_instance : JsVal := Obj TransactionDatabaseProto [].

(** [new TransactionDatabase(opts, callback)], lines 23-47. *)
Definition TransactionDatabase (opts : JsVal) : Result unit :=
  let transdb := fresh_instance in
  _exec <- prelude opts ;;
  source <- get transdb "db" ;;
  _ <- wrapObject transdb transdb source ;;
  db' <- get transdb "db" ;;
  _ <- call_method db' "on" ;;
  Ok tt.

End Ctor.

(** ** The drain in the words of the specification

    Walk the queue from its head: every entry before the first [Begin] is
    dispatched to its target, that [Begin] (if there is one) is executed
    and the walk stops there, the entries behind it stay queued. *)

(** The driver call made for a queued entry, the counter being raised
    first for an entry of type 'lock'. *)
Definition dispatch_op (item : PendingOp) (st : State) : State :=
  match item with
  | Op l object method args => emit (Dispatched object method args) (lock_if l st)
  | Begin _ => st
  end.

Definition dispatch_all (items : list PendingOp) (st : State) : State :=
  fold_left (fun s item => dispatch_op item s) items st.

Definition effect_of (item : PendingOp) : list Effect :=
  match item with
  | Op _ object method args => [Dispatched object method args]
  | Begin _ => []
  end.

Fixpoint split_at_begin (q : list PendingOp)
  : list PendingOp * option (list Value) * list PendingOp :=
  match q with
  | [] => ([], None, [])
  | Begin args :: rest => ([], Some args, rest)
  | item :: rest =>
      let '(pre, b, post) := split_at_begin rest in (item :: pre, b, post)
  end.

Definition begin_entry (b : option (list Value)) : list PendingOp :=
  match b with
  | Some args => [Begin args]
  | None => []
  end.

Definition drain_spec (st : State) : Outcome :=
  let '(pre, b, post) := split_at_begin (queue st) in
  let st1 := set_queue post (dispatch_all pre st) in
  match b with
  | None => Normal st1
  | Some args => beginTransaction args st1
  end.


(** ** States used as examples *)

(** The queue [opA, opB, begin2, opC] at the moment transaction 1 has
    finished: its [finished] is set and no transaction is current. *)
Definition opA : PendingOp := Op true Connection "run" [VStr "a"; VFun (FNewCallback (VFun (FUser 10)))].
Definition opB : PendingOp := Op false Connection "close" [].
Definition begin2 : PendingOp := Begin [VFun (FUser 2)].
Definition opC : PendingOp := Op true (Statement 0) "get" [VFun (FNewCallback dummyCallback)].

Definition after_first : State :=
  mkState 0 [opA; opB; begin2; opC] None [true] (Some 0%nat) None [] [].

(** A transaction is open: activation 0 has begun and not finished. *)
Definition active : State :=
  mkState 0 [] (Some Connection) [false] (Some 0%nat) None [] [].

(** The wrapping of the completion callback in the words of the
    specification: the caller's trailing callback is replaced by the
    wrapper around it, and a wrapper around a substitute is added when the
    caller passed no callback. *)
Definition wrap_completion_spec (args : list Value) : list Value :=
  match last1 args with
  | VFun g => removelast args ++ [VFun (FNewCallback (VFun g))]
  | _ => args ++ [VFun (FNewCallback dummyCallback)]
  end.

(** Transaction 0 was begun and committed, transaction 1 was begun
    after it and is open. *)
Definition second_begun : State :=
  run [EvBegin [VFun (FUser 1)];
       EvExecDone (EBegin 0 (VFun (FUser 1))) VNull;
       EvCommit (VFun (FUser 2));
       EvExecDone (ECommit 0 (VFun (FUser 2))) VNull;
       EvBegin [VFun (FUser 3)];
       EvExecDone (EBegin 1 (VFun (FUser 3))) VNull] init.

(** A transaction was begun from the initial state and its BEGIN
    succeeded. *)
Definition begun : State :=
  run [EvBegin [VFun (FUser 1)];
       EvExecDone (EBegin 0 (VFun (FUser 1))) VNull] init.

(** ** Calls of the application, one after the other *)

(** A call [object.method(args)] on a wrapped object. *)
Definition Invocation : Type := (ObjRef * string * list Value)%type.

Definition call_event (c : Invocation) : Event :=
  let '(object, method, args) := c in EvCall object method args.

(** The queue entry of line 235 for a call. *)
Definition op_of (c : Invocation) : PendingOp :=
  let '(object, method, args) := c in
  Op (mem method lockMethods) object method (wrapped_args method args).


(** The number of entries of type 'lock'. *)
Fixpoint locks_of (items : list PendingOp) : Z :=
  match items with
  | [] => 0
  | Op true _ _ _ :: rest => 1 + locks_of rest
  | _ :: rest => locks_of rest
  end.

(** The functions on the handle belong to an activation that exists. *)
Definition installed_exists (st : State) : Prop :=
  match installed st with
  | Some t => (t < List.length (finished st))%nat
  | None => True
  end.



(** [st'] has the activations of [st] and has not undone any finish:
    the list of [finished] variables is no shorter, what was finished is
    still finished, and the functions on the handle, if they belonged to
    an existing activation, still do. *)
Definition keeps_transactions (st st' : State) : Prop :=
  (List.length (finished st) <= List.length (finished st'))%nat
  /\ (forall t, is_finished t st = true -> is_finished t st' = true)
  /\ (installed_exists st -> installed_exists st').

(** ** Counting calls *)

Definition isDispatched (e : Effect) : bool :=
  match e with Dispatched _ _ _ => true | _ => false end.

(** The calls of wrapped methods that have reached the driver, and those
    that wait in the queue. *)
Definition dispatched_calls (st : State) : nat :=
  List.length (filter isDispatched (out st)).

Definition queued_calls (st : State) : nat :=
  List.length (filter (fun item => negb (isBegin item)) (queue st)).

(** The calls of [beginTransaction] that wait in the queue. *)
Definition queued_begins (st : State) : nat :=
  List.length (filter isBegin (queue st)).

Definition isCall (ev : Event) : bool :=
  match ev with EvCall _ _ _ => true | _ => false end.

Definition isBeginCall (ev : Event) : bool :=
  match ev with EvBegin _ => true | _ => false end.

(** What a turn adds to the calls, and to the transactions begun. *)
Definition one_if (b : bool) : nat := if b then 1%nat else 0%nat.

(** Transaction 0 was begun, then both [commit] and [rollback] were
    called on it; its COMMIT has succeeded, transaction 1 has been begun,
    and the ROLLBACK of transaction 0 is still to complete. *)
Definition second_begun_first_pending : State :=
  run [EvBegin [VFun (FUser 1)];
       EvExecDone (EBegin 0 (VFun (FUser 1))) VNull;
       EvCommit (VFun (FUser 2));
       EvRollback (VFun (FUser 3));
       EvExecDone (ECommit 0 (VFun (FUser 2))) VNull;
       EvBegin [VFun (FUser 4)];
       EvExecDone (EBegin 1 (VFun (FUser 4))) VNull] init.


(** * Properties *)

Scheme Value_Func_ind := Induction for Value Sort Prop
  with Func_Value_ind := Induction for Func Sort Prop.

(** ** Predicates kept by every function of the wrapper *)

Section Preservation.

Variable P : State -> Prop.

Definition preserves (f : State -> Outcome) : Prop :=
  forall st, P st -> P (final (f st)).

Lemma preserves_bind f g :
  preserves f -> preserves g -> preserves (fun st => f st >>= g).
Proof.
  intros Hf Hg st HP. specialize (Hf st HP).
  destruct (f st) as [st1|e st1]; simpl in *; auto.
Qed.

(** [P] looks only at the counter, at the pending timers and at the
    connection's own property, and the changes the wrapper makes to the
    first two keep it. *)
Hypothesis P_frame :
  forall st st',
    _lock st' = _lock st -> timers st' = timers st ->
    db_currentTransaction st' = db_currentTransaction st ->
    P st -> P st'.
Hypothesis P_incr : forall st, P st -> P (set_lock (_lock st + 1) st).
Hypothesis P_decr :
  forall st, P st -> 1 <= _lock st -> P (set_lock (_lock st - 1) st).
Hypothesis P_poll :
  forall st k,
    P st -> _lock st <> 0 ->
    P (set_timers (timers st ++ [(k, poll_delay)]) st).
Hypothesis P_fired :
  forall st i, P st -> P (set_timers (remove_nth i (timers st)) st).

Ltac same_lock := eapply P_frame; [| | |eassumption]; reflexivity.

Lemma preserves_check k : preserves (check k).
Proof.
  intros st HP. unfold check.
  destruct (_lock st =? 0) eqn:E.
  - destruct k; simpl; same_lock.
  - apply P_poll; auto. apply Z.eqb_neq; auto.
Qed.

Lemma preserves_on_db_error : preserves on_db_error.
Proof.
  intros st HP. unfold on_db_error.
  destruct (db_currentTransaction st); auto.
  destruct (installed st); auto.
  destruct (is_finished n st); auto.
  apply preserves_check; auto.
Qed.

Lemma preserves_invoke f : forall args, preserves (invoke f args).
Proof.
  induction f using Func_Value_ind
    with (P := fun v => forall args, preserves (call v args));
    intros args st HP; simpl; auto.
  - (* a function value *) apply IHf; auto.
  - (* application function *) same_lock.
  - (* dummyCallback *)
    destruct (truthy (hd VUndefined args)); auto.
    apply preserves_on_db_error. same_lock.
  - (* newCallback *)
    destruct (_lock st <? 1) eqn:E; auto.
    apply Z.ltb_ge in E.
    specialize (IHf args _ (P_decr st HP E)).
    destruct orig; auto.
Qed.

Lemma preserves_call v args : preserves (call v args).
Proof.
  destruct v; intros st HP; simpl; auto. apply preserves_invoke; auto.
Qed.

Lemma preserves_beginTransaction args : preserves (beginTransaction args).
Proof.
  intros st HP. unfold beginTransaction.
  destruct (currentTransaction st).
  - simpl. same_lock.
  - apply preserves_check. same_lock.
Qed.

Lemma preserves_runQueue_loop q : preserves (runQueue_loop q).
Proof.
  induction q as [|item rest IH]; intros st HP; simpl; auto.
  assert (H2 : P (lock_if (String.eqb (item_type item) "lock")
                          (set_queue rest st))).
  { unfold lock_if. destruct (String.eqb (item_type item) "lock").
    - eapply P_frame; [| | |apply (P_incr st HP)]; reflexivity.
    - same_lock. }
  destruct item as [args|l o m args].
  - simpl. pose proof (preserves_beginTransaction args _ H2) as Hb.
    destruct (beginTransaction args _); simpl in *; auto.
  - assert (String.eqb (item_type (Op l o m args)) "transaction" = false)
      as -> by (destruct l; reflexivity).
    cbn [apply_item bind]. apply IH. same_lock.
Qed.

Lemma preserves_finishTransaction t e cb1 :
  preserves (finishTransaction t e cb1).
Proof.
  intros st HP. unfold finishTransaction, _runQueue.
  apply (preserves_bind (runQueue_loop _) (call cb1 [e])).
  - apply preserves_runQueue_loop.
  - apply preserves_call.
  - same_lock.
Qed.

Lemma preserves_rollback t cb : preserves (rollback t cb).
Proof.
  intros st HP. unfold rollback. destruct (is_finished t st).
  - apply preserves_call; auto.
  - apply preserves_check; auto.
Qed.

Lemma preserves_commit t cb : preserves (commit t cb).
Proof.
  intros st HP. unfold commit. destruct (is_finished t st).
  - apply preserves_call; auto.
  - apply preserves_check; auto.
Qed.

Lemma preserves_exec_callback k err : preserves (exec_callback k err).
Proof.
  intros st HP. destruct k; simpl.
  - destruct (truthy err); apply preserves_call; auto.
  - destruct (truthy err).
    + unfold handle_rollback. destruct (installed st); auto.
      apply preserves_rollback; auto.
    + apply preserves_finishTransaction; auto.
  - apply preserves_finishTransaction; auto.
Qed.

Lemma preserves_wrapDbMethod o m args : preserves (wrapDbMethod o m args).
Proof.
  intros st HP. unfold wrapDbMethod.
  destruct (currentTransaction st); cbn [final].
  - same_lock.
  - unfold lock_if. destruct (mem m lockMethods).
    + eapply P_frame; [| | |apply (P_incr st HP)]; reflexivity.
    + same_lock.
Qed.

Lemma preserves_step ev : preserves (step ev).
Proof.
  intros st HP. destruct ev; simpl.
  - apply preserves_wrapDbMethod; auto.
  - apply preserves_beginTransaction; auto.
  - unfold handle_commit. destruct (installed st); auto.
    apply preserves_commit; auto.
  - unfold handle_rollback. destruct (installed st); auto.
    apply preserves_rollback; auto.
  - unfold timer_fire. destruct (nth_error (timers st) i) as [[k d]|]; auto.
    apply preserves_check. apply P_fired; auto.
  - apply preserves_exec_callback; auto.
  - apply preserves_invoke; auto.
  - apply preserves_on_db_error; auto.
Qed.

Lemma preserves_run evs : forall st, P st -> P (run evs st).
Proof.
  induction evs as [|ev evs IH]; intros st HP; simpl; auto.
  apply IH. apply preserves_step; auto.
Qed.

End Preservation.

(** ** The counter of locks *)




(** ** Waiting for the counter to reach zero *)

Lemma remove_nth_Forall {A} (Q : A -> Prop) i (l : list A) :
  Forall Q l -> Forall Q (remove_nth i l).
Proof.
  intros H. revert i. induction H as [|x l Hx Hl IH]; intros [|i]; simpl; auto.
Qed.

Lemma timers_poll_delay_run evs st :
  Forall (fun tm => snd tm = poll_delay) (timers st) ->
  Forall (fun tm => snd tm = poll_delay) (timers (run evs st)).
Proof.
  apply (preserves_run (fun s => Forall (fun tm => snd tm = poll_delay)
                                        (timers s))).
  - intros s s' _ Ht _ H. rewrite Ht; auto.
  - intros s H. exact H.
  - intros s H _. exact H.
  - intros s k H _. simpl. apply Forall_app. split; auto.
  - intros s i H. simpl. apply remove_nth_Forall; auto.
Qed.

Lemma wait_callback_issues k st :
  exists sql e, wait_callback k st = Normal (emit (Exec sql e) st).
Proof. destruct k; simpl; unfold _exec; eauto. Qed.

(** C10.  [_wait] runs the function it is given at once when the counter
    of locks is zero and at no other value of the counter; when the
    counter is not zero it does nothing but set a timer that runs the same
    check again, the timer's delay being 1 ms, which is within 5 ms; that
    is the only delay of any timer the wrapper ever has pending. *)
Theorem wait_fires_only_at_zero (k : WaitCont) (st : State) :
  (_lock st = 0 ->
     _wait k st = wait_callback k st
     /\ exists sql e, _wait k st = Normal (emit (Exec sql e) st))
  /\ (_lock st <> 0 ->
     _wait k st = Normal (set_timers (timers st ++ [(k, poll_delay)]) st))
  /\ (out (final (_wait k st)) <> out st -> _lock st = 0)
  /\ (forall i k' d,
        nth_error (timers st) i = Some (k', d) ->
        timer_fire i st
        = _wait k' (set_timers (remove_nth i (timers st)) st))
  /\ 0 < poll_delay <= 5
  /\ (forall evs,
        Forall (fun tm => snd tm = poll_delay) (timers (run evs init))).
Proof.
  unfold _wait, check.
  split; [|split; [|split; [|split; [|split]]]].
  - intros H. rewrite H. simpl. split; auto. apply wait_callback_issues.
  - intros H. apply Z.eqb_neq in H. rewrite H. reflexivity.
  - intros H. destruct (_lock st =? 0) eqn:E.
    + apply Z.eqb_eq; auto.
    + simpl in H. congruence.
  - intros i k' d H. unfold timer_fire. rewrite H. reflexivity.
  - unfold poll_delay. lia.
  - intros evs. apply timers_poll_delay_run. constructor.
Qed.

Lemma wait_fires_only_at_zero_witness :
  _wait (KCommit 0 (VFun (FUser 1))) init
  = Normal (emit (Exec "COMMIT;" (ECommit 0 (VFun (FUser 1)))) init)
  /\ _wait (KCommit 0 (VFun (FUser 1))) (set_lock 2 init)
     = Normal (set_timers [(KCommit 0 (VFun (FUser 1)), 1)] (set_lock 2 init))
  /\ timer_fire 0 (set_timers [(KBegin 0 VNull, 1)] (set_lock 1 init))
     = Normal (set_timers [(KBegin 0 VNull, 1)] (set_lock 1 init)).
Proof.
  split; [|split].
  - destruct (wait_fires_only_at_zero (KCommit 0 (VFun (FUser 1))) init)
      as (H & _).
    destruct (H eq_refl) as (-> & _). reflexivity.
  - destruct (wait_fires_only_at_zero (KCommit 0 (VFun (FUser 1)))
                                      (set_lock 2 init)) as (_ & H & _).
    apply H. simpl. lia.
  - destruct (wait_fires_only_at_zero (KBegin 0 VNull)
                (set_timers [(KBegin 0 VNull, 1)] (set_lock 1 init)))
      as (_ & _ & _ & H & _).
    rewrite (H 0%nat (KBegin 0 VNull) 1 eq_refl). reflexivity.
Defined.

(** ** The constructor *)

Lemma wrapObject_fresh_instance tdb source :
  Ctor.wrap_loop (Ctor.enumerate source) = Ctor.Ok tt ->
  Ctor.wrapObject tdb Ctor.fresh_instance source
  = Ctor.Throw (TypeError "Cannot read property bind").
Proof.
  intros H. unfold Ctor.wrapObject. rewrite H. reflexivity.
Qed.

(** C4.  No call [new TransactionDatabase(opts, callback)] returns: for
    every [opts] it throws.  When lines 27-38 get through, line 40 hands
    to [wrapObject] the field [db] of the new instance, which is
    undefined, and line 173 then reads [emit] on that instance, which is
    undefined as well since the instance does not inherit from
    EventEmitter, and throws on [.bind]; the loop of line 166 has nothing
    to visit there, and wherever it does visit a function that is not
    prohibited, line 168 throws for the undeclared [wrapMethod]. *)
Theorem constructor_never_completes (opts : Ctor.JsVal) :
  (exists e, Ctor.TransactionDatabase opts = Ctor.Throw e)
  /\ Ctor.TransactionDatabase opts
     = Ctor.rbind (Ctor.prelude opts)
         (fun _ => Ctor.Throw (TypeError "Cannot read property bind"))
  /\ Ctor.get Ctor.fresh_instance "db" = Ctor.Ok Ctor.Undefined
  /\ Ctor.get (Ctor.EventEmitter_call Ctor.fresh_instance) "emit"
     = Ctor.Ok Ctor.Undefined
  /\ (forall m f rest,
        Ctor.wrap_loop ((m, Ctor.Fn f) :: rest)
        = if mem m prohibitedMethods then Ctor.wrap_loop rest
          else Ctor.Throw (ReferenceError "wrapMethod")).
Proof.
  assert (E : Ctor.TransactionDatabase opts
              = Ctor.rbind (Ctor.prelude opts)
                  (fun _ => Ctor.Throw
                              (TypeError "Cannot read property bind"))).
  { unfold Ctor.TransactionDatabase.
    destruct (Ctor.prelude opts); reflexivity. }
  repeat split; auto.
  - rewrite E. destruct (Ctor.prelude opts); simpl; eauto.
  - intros m f rest. cbn [Ctor.wrap_loop Ctor.instanceofFunction andb].
    destruct (mem m prohibitedMethods); reflexivity.
Qed.

(** ** The queue and its drain *)

Lemma bind_Normal o : o >>= Normal = o.
Proof. destruct o; reflexivity. Qed.

Lemma dispatch_op_set_queue item q st :
  dispatch_op item (set_queue q st) = set_queue q (dispatch_op item st).
Proof. destruct item as [|[|] o m a]; reflexivity. Qed.

Lemma dispatch_all_set_queue items : forall q st,
  dispatch_all items (set_queue q st) = set_queue q (dispatch_all items st).
Proof.
  induction items as [|item items IH]; intros q st; simpl; auto.
  rewrite dispatch_op_set_queue. apply IH.
Qed.

Lemma dispatch_all_cons item items st :
  dispatch_all (item :: items) st = dispatch_all items (dispatch_op item st).
Proof. reflexivity. Qed.

Lemma set_queue_twice q q' st :
  set_queue q (set_queue q' st) = set_queue q st.
Proof. reflexivity. Qed.

Lemma runQueue_loop_drain q : forall st,
  queue st = q ->
  runQueue_loop q st
  = let '(pre, b, post) := split_at_begin q in
    let st1 := set_queue post (dispatch_all pre st) in
    match b with
    | None => Normal st1
    | Some args => beginTransaction args st1
    end.
Proof.
  induction q as [|item rest IH]; intros st Hq.
  - destruct st; simpl in *; subst; reflexivity.
  - destruct item as [args|l o m a].
    + simpl. apply bind_Normal.
    + assert (E : runQueue_loop (Op l o m a :: rest) st
                  = runQueue_loop rest (dispatch_op (Op l o m a)
                                                    (set_queue rest st)))
        by (destruct l; reflexivity).
      rewrite E, IH by (destruct l; reflexivity).
      cbn [split_at_begin].
      destruct (split_at_begin rest) as [[pre b] post].
      rewrite !dispatch_all_cons.
      rewrite dispatch_op_set_queue, dispatch_all_set_queue.
      cbv zeta. rewrite set_queue_twice. reflexivity.
Qed.

Lemma split_at_begin_parts q : forall pre b post,
  split_at_begin q = (pre, b, post) ->
  q = pre ++ begin_entry b ++ post
  /\ existsb isBegin pre = false
  /\ (b = None -> post = []).
Proof.
  induction q as [|item rest IH]; intros pre b post H; simpl in H.
  - inversion H; subst. auto.
  - destruct item as [args|l o m a].
    + inversion H; subst. repeat split; auto. discriminate.
    + destruct (split_at_begin rest) as [[pre' b'] post'].
      inversion H; subst.
      destruct (IH _ _ _ eq_refl) as (Hq & Hpre & Hpost).
      repeat split; auto. simpl. rewrite <- Hq. reflexivity.
Qed.

Lemma split_at_begin_first pre args post :
  existsb isBegin pre = false ->
  split_at_begin (pre ++ Begin args :: post) = (pre, Some args, post).
Proof.
  induction pre as [|item pre IH]; intros H; simpl in *; auto.
  destruct item as [a|l o m a]; simpl in H; [discriminate|].
  rewrite (IH H). reflexivity.
Qed.

Lemma out_dispatch_all items : forall st,
  out (dispatch_all items st) = out st ++ flat_map effect_of items.
Proof.
  induction items as [|item items IH]; intros st; simpl.
  - rewrite app_nil_r. reflexivity.
  - rewrite IH. destruct item as [a|[|] o m a]; simpl; auto.
    + rewrite <- app_assoc. reflexivity.
    + rewrite <- app_assoc. reflexivity.
Qed.

Lemma currentTransaction_dispatch_all items : forall st,
  currentTransaction (dispatch_all items st) = currentTransaction st.
Proof.
  induction items as [|item items IH]; intros st; simpl; auto.
  rewrite IH. destruct item as [a|[|] o m a]; reflexivity.
Qed.

Lemma finished_dispatch_all items : forall st,
  finished (dispatch_all items st) = finished st.
Proof.
  induction items as [|item items IH]; intros st; simpl; auto.
  rewrite IH. destruct item as [a|[|] o m a]; reflexivity.
Qed.

Lemma beginTransaction_idle args st :
  currentTransaction st = None ->
  exists st', beginTransaction args st = Normal st'
    /\ queue st' = queue st
    /\ currentTransaction st' = Some Connection
    /\ installed st' = Some (List.length (finished st)).
Proof.
  intros H. unfold beginTransaction, _wait, check. rewrite H.
  cbn [_lock set_installed set_currentTransaction set_finished].
  destruct (_lock st =? 0); eexists; (split; [reflexivity|]);
    repeat split; reflexivity.
Qed.

(** C2.  One drain, started with no current transaction as
    [finishTransaction] starts it, does what the specification says of it:
    the entries ahead of the first [Begin] are dispatched to their targets
    in queue order, the first [Begin] is executed and ends the walk, and
    what was behind it is the queue afterwards; with no [Begin] the queue
    ends empty.  The drain always returns. *)
Theorem drain_stops_at_first_Begin (st : State) pre b post :
  split_at_begin (queue st) = (pre, b, post) ->
  currentTransaction st = None ->
  queue st = pre ++ begin_entry b ++ post
  /\ existsb isBegin pre = false
  /\ (b = None -> post = [])
  /\ _runQueue st = drain_spec st
  /\ out (dispatch_all pre st) = out st ++ flat_map effect_of pre
  /\ (exists st', _runQueue st = Normal st' /\ queue st' = post)
  /\ (b = None ->
      _runQueue st = Normal (set_queue [] (dispatch_all pre st)))
  /\ (forall args,
        b = Some args ->
        _runQueue st
        = _wait (KBegin (List.length (finished st)) (hd VUndefined args))
            (set_installed (Some (List.length (finished st)))
               (set_currentTransaction (Some Connection)
                  (set_finished (finished st ++ [false])
                     (set_queue post (dispatch_all pre st)))))).
Proof.
  intros Hs Hc.
  destruct (split_at_begin_parts _ _ _ _ Hs) as (Hq & Hpre & Hpost).
  assert (Hd : _runQueue st = drain_spec st).
  { unfold _runQueue, drain_spec. apply runQueue_loop_drain. reflexivity. }
  assert (Hc1 : currentTransaction (set_queue post (dispatch_all pre st))
                = None).
  { simpl. rewrite currentTransaction_dispatch_all. exact Hc. }
  split; [exact Hq|]. split; [exact Hpre|]. split; [exact Hpost|].
  split; [exact Hd|]. split; [apply out_dispatch_all|].
  rewrite Hd. unfold drain_spec. rewrite Hs. cbv zeta.
  split; [|split].
  - destruct b as [args|].
    + destruct (beginTransaction_idle args _ Hc1) as (st' & E & Q & _).
      exists st'. split; auto.
    + eexists. split; reflexivity.
  - intros ->. rewrite (Hpost eq_refl). reflexivity.
  - intros args ->. unfold beginTransaction at 1. rewrite Hc1.
    change (finished (set_queue post (dispatch_all pre st)))
      with (finished (dispatch_all pre st)).
    rewrite finished_dispatch_all. reflexivity.
Qed.

Lemma drain_stops_at_first_Begin_witness :
  (exists st', _runQueue after_first = Normal st' /\ queue st' = [opC])
  /\ out (dispatch_all [opA; opB] after_first)
     = [Dispatched Connection "run"
          [VStr "a"; VFun (FNewCallback (VFun (FUser 10)))];
        Dispatched Connection "close" []].
Proof.
  destruct (drain_stops_at_first_Begin after_first [opA; opB]
              (Some [VFun (FUser 2)]) [opC] eq_refl eq_refl)
    as (_ & _ & _ & _ & Hout & Hq & _).
  split; [exact Hq | exact Hout].
Defined.

(** What does not touch the queue, and what only appends to it. *)

Lemma queue_check k st : queue (final (check k st)) = queue st.
Proof.
  unfold check. destruct (_lock st =? 0); [destruct k|]; reflexivity.
Qed.

Lemma queue_on_db_error st : queue (final (on_db_error st)) = queue st.
Proof.
  unfold on_db_error.
  destruct (db_currentTransaction st); auto.
  destruct (installed st); auto.
  destruct (is_finished n st); auto.
  apply queue_check.
Qed.

Lemma queue_invoke f : forall args st,
  queue (final (invoke f args st)) = queue st.
Proof.
  induction f using Func_Value_ind
    with (P := fun v => forall args st,
                 queue (final (call v args st)) = queue st);
    intros args st; simpl; auto.
  - destruct (truthy (hd VUndefined args)); auto.
    unfold db_emit_error. rewrite queue_on_db_error. reflexivity.
  - destruct (_lock st <? 1); auto.
    specialize (IHf args (set_lock (_lock st - 1) st)).
    destruct orig; auto.
Qed.











(** ** Failure paths *)

(** C1.  From a state with a transaction open and no lock held,
    [commit(cb)] issues COMMIT; when COMMIT fails, ROLLBACK is issued and
    [cb] has not been called; when ROLLBACK completes, with whatever
    outcome, the transaction is finished and the function of line 132
    throws a ReferenceError for [error]: [cb] is never called, with the
    COMMIT error or with anything else. *)
Theorem commit_failure_never_reaches_cb :
  let cb := VFun (FUser 5) in
  let e := VError "disk I/O error" in
  let st1 := final (handle_commit cb active) in
  let st2 := final (exec_callback (ECommit 0 cb) e st1) in
  out st1 = [Exec "COMMIT;" (ECommit 0 cb)]
  /\ out st2
     = [Exec "COMMIT;" (ECommit 0 cb);
        Exec "ROLLBACK;" (ERollback 0 (VFun (FCommitFailed cb)))]
  /\ forall r,
       exec_callback (ERollback 0 (VFun (FCommitFailed cb))) r st2
       = Thrown (ReferenceError "error")
           (set_currentTransaction None (set_finished [true] st2)).
Proof.
  cbv zeta. split; [reflexivity|]. split; [reflexivity|].
  intros r. reflexivity.
Qed.

(** C8.  From the initial state [beginTransaction(cb)] issues BEGIN; when
    BEGIN fails with [e], [cb] is called with [e] and nothing else is
    done: the current transaction stays set, so that the next call of a
    wrapped method and the next [beginTransaction] are queued. *)
Theorem begin_failure_leaves_transaction_set :
  let cb := VFun (FUser 1) in
  let e := VError "cannot start a transaction" in
  let st1 := final (beginTransaction [cb] init) in
  let st2 := final (exec_callback (EBegin 0 cb) e st1) in
  out st1 = [Exec "BEGIN;" (EBegin 0 cb)]
  /\ exec_callback (EBegin 0 cb) e st1 = Normal (emit (Called 1 [e]) st1)
  /\ currentTransaction st2 = Some Connection
  /\ wrapDbMethod Connection "close" [] st2
     = Normal (set_queue [Op false Connection "close" []] st2)
  /\ beginTransaction [VFun (FUser 2)] st2
     = Normal (set_queue [Begin [VFun (FUser 2)]] st2).
Proof.
  cbv zeta. repeat split; reflexivity.
Qed.

Lemma no_connection_property_run evs st :
  db_currentTransaction st = None ->
  db_currentTransaction (run evs st) = None.
Proof.
  apply (preserves_run (fun s => db_currentTransaction s = None)).
  - intros s s' _ _ Hd H. rewrite Hd; auto.
  - intros s H. exact H.
  - intros s H _. exact H.
  - intros s k H _. exact H.
  - intros s i H. exact H.
Qed.

(** C9.  In the state reached when a transaction has begun, the handler
    of the connection's 'error' event does nothing: no ROLLBACK is issued
    and no wait is started.  Line 43 reads [currentTransaction] on [this],
    the connection, where no statement of the file ever sets it; so the
    handler does nothing in any state the wrapper can reach. *)
Theorem connection_error_starts_no_rollback :
  currentTransaction begun = Some Connection
  /\ installed begun = Some 0%nat
  /\ is_finished 0 begun = false
  /\ step (EvDbError (VError "SQLITE_ERROR")) begun = Normal begun
  /\ (forall evs e,
        step (EvDbError e) (run evs init) = Normal (run evs init)).
Proof.
  repeat split.
  intros evs e. simpl. unfold on_db_error.
  rewrite no_connection_property_run; reflexivity.
Qed.

(** ** Interception of a call *)

Lemma hijack_wrap_completion args : hijack args = wrap_completion_spec args.
Proof.
  unfold hijack, wrap_completion_spec.
  destruct args as [|a args]; [reflexivity|].
  assert ((0 <? Z.of_nat (List.length (a :: args))) = true) as ->
    by (apply Z.ltb_lt; simpl; lia).
  destruct (last1 (a :: args)); reflexivity.
Qed.

(** C3.  [statement.each(rowCallback, complete)]: a call of [each]
    with two arguments gets two dummies appended, whatever the two
    arguments are, and the wrapper is built around the second dummy.  So
    the caller's completion callback goes to the driver, or into the
    queue, as it came, as an argument in front of the dummies; it is not
    replaced by a wrapper, and the wrapper, when fired, releases the lock
    and calls neither of the caller's callbacks. *)
Theorem each_completion_callback_not_wrapped :
  (forall a b,
     wrapped_args "each" [a; b]
     = [a; b; dummyCallback; VFun (FNewCallback dummyCallback)])
  /\ wrapDbMethod (Statement 0) "each" [VFun (FUser 1); VFun (FUser 2)] init
     = Normal (emit (Dispatched (Statement 0) "each"
                       [VFun (FUser 1); VFun (FUser 2); dummyCallback;
                        VFun (FNewCallback dummyCallback)])
                    (set_lock 1 init))
  /\ wrapDbMethod (Statement 0) "each" [VFun (FUser 1); VFun (FUser 2)] active
     = Normal (set_queue
                 [Op true (Statement 0) "each"
                     [VFun (FUser 1); VFun (FUser 2); dummyCallback;
                      VFun (FNewCallback dummyCallback)]] active)
  /\ invoke (FNewCallback dummyCallback) [VNull]
       (final (wrapDbMethod (Statement 0) "each"
                 [VFun (FUser 1); VFun (FUser 2)] init))
     = Normal (emit (Dispatched (Statement 0) "each"
                       [VFun (FUser 1); VFun (FUser 2); dummyCallback;
                        VFun (FNewCallback dummyCallback)])
                    init)
  /\ wrapped_args "each" [VFun (FUser 1); VFun (FUser 2)]
     <> wrap_completion_spec [VFun (FUser 1); VFun (FUser 2)].
Proof.
  split; [intros a b; reflexivity|].
  split; [reflexivity|]. split; [reflexivity|]. split; [reflexivity|].
  vm_compute. discriminate.
Qed.

(** What holds of every intercepted call.  It is dispatched at once
    when no transaction is current, the counter being raised first for a
    locking method, and is otherwise appended to the queue and not
    dispatched; in both cases with the same argument list.  For a method
    that is not locking that list is the caller's.  For a locking method
    the last argument, when it is a function, is replaced by the wrapper
    around it, and the wrapper around [dummyCallback] is appended when it
    is not; the wrapper takes one off the counter and then calls what it
    is around.  For [each] this is done after lines 192-204, whose result
    is given for every argument list. *)
Lemma wrapDbMethod_dispatch_or_queue
  (object : ObjRef) (method : string) (args : list Value) (st : State) :
  (currentTransaction st = None ->
     wrapDbMethod object method args st
     = Normal (emit (Dispatched object method (wrapped_args method args))
                    (lock_if (mem method lockMethods) st)))
  /\ (currentTransaction st <> None ->
     wrapDbMethod object method args st
     = Normal (set_queue
                 (queue st ++ [Op (mem method lockMethods) object method
                                  (wrapped_args method args)]) st))
  /\ (mem method lockMethods = false -> wrapped_args method args = args)
  /\ (mem method lockMethods = true ->
      method <> "each" ->
      wrapped_args method args = wrap_completion_spec args)
  /\ wrapped_args "each" args = wrap_completion_spec (normalize_each args)
  /\ ((2 < List.length args)%nat ->
      isFunction (last1 args) = true ->
      isFunction (last2 args) = true ->
      normalize_each args = args)
  /\ ((List.length args <= 2)%nat ->
      normalize_each args = args ++ [dummyCallback; dummyCallback])
  /\ ((2 < List.length args)%nat ->
      normalize_each args
      = if negb (isFunction (last1 args)) && negb (isFunction (last2 args))
        then args ++ [dummyCallback; dummyCallback]
        else if isFunction (last1 args) && negb (isFunction (last2 args))
        then args ++ [dummyCallback]
        else args)
  /\ (forall orig cargs s,
        1 <= _lock s ->
        invoke (FNewCallback orig) cargs s
        = call orig cargs (set_lock (_lock s - 1) s)).
Proof.
  split; [|split; [|split; [|split; [|split; [|split; [|split; [|split]]]]]]].
  - intros H. unfold wrapDbMethod. rewrite H. reflexivity.
  - intros H. unfold wrapDbMethod.
    destruct (currentTransaction st); congruence.
  - intros H. unfold wrapped_args. rewrite H. reflexivity.
  - intros H Hne. unfold wrapped_args. rewrite H.
    apply String.eqb_neq in Hne. rewrite Hne. apply hijack_wrap_completion.
  - unfold wrapped_args. cbn [mem existsb lockMethods String.eqb].
    change (mem "each" lockMethods) with true.
    apply hijack_wrap_completion.
  - intros Hl H1 H2. unfold normalize_each. rewrite H1, H2.
    assert ((Z.of_nat (List.length args) <=? 2) = false) as ->
      by (apply Z.leb_gt; lia).
    reflexivity.
  - intros Hl. unfold normalize_each.
    assert ((Z.of_nat (List.length args) <=? 2) = true) as ->
      by (apply Z.leb_le; lia).
    reflexivity.
  - intros Hl. unfold normalize_each.
    assert ((Z.of_nat (List.length args) <=? 2) = false) as ->
      by (apply Z.leb_gt; lia).
    reflexivity.
  - intros orig cargs s H. simpl.
    apply Z.ltb_ge in H. rewrite H. destruct orig; reflexivity.
Qed.

Lemma wrapDbMethod_dispatch_or_queue_witness :
  wrapDbMethod Connection "run" [VStr "q"; VFun (FUser 1)] init
  = Normal (emit (Dispatched Connection "run"
                    [VStr "q"; VFun (FNewCallback (VFun (FUser 1)))])
                 (set_lock 1 init))
  /\ wrapDbMethod Connection "run" [VStr "q"] active
     = Normal (set_queue
                 [Op true Connection "run"
                     [VStr "q"; VFun (FNewCallback dummyCallback)]] active)
  /\ wrapped_args "close" [VFun (FUser 1)] = [VFun (FUser 1)]
  /\ normalize_each [VStr "q"; VFun (FUser 1); VFun (FUser 2)]
     = [VStr "q"; VFun (FUser 1); VFun (FUser 2)]
  /\ normalize_each [VFun (FUser 1); VFun (FUser 2)]
     = [VFun (FUser 1); VFun (FUser 2); dummyCallback; dummyCallback]
  /\ normalize_each [VStr "q"; VNum 1; VFun (FUser 1)]
     = [VStr "q"; VNum 1; VFun (FUser 1); dummyCallback]
  /\ invoke (FNewCallback (VFun (FUser 1))) [VNull] (set_lock 1 init)
     = Normal (emit (Called 1 [VNull]) init).
Proof.
  split; [|split; [|split; [|split; [|split; [|split]]]]].
  - destruct (wrapDbMethod_dispatch_or_queue Connection "run"
                [VStr "q"; VFun (FUser 1)] init) as (H & _).
    rewrite (H eq_refl). reflexivity.
  - destruct (wrapDbMethod_dispatch_or_queue Connection "run"
                [VStr "q"] active) as (_ & H & _).
    rewrite H by discriminate. reflexivity.
  - destruct (wrapDbMethod_dispatch_or_queue Connection "close"
                [VFun (FUser 1)] init) as (_ & _ & H & _).
    apply H. reflexivity.
  - destruct (wrapDbMethod_dispatch_or_queue Connection "each"
                [VStr "q"; VFun (FUser 1); VFun (FUser 2)] init)
      as (_ & _ & _ & _ & _ & H & _).
    apply H; [simpl; lia | reflexivity | reflexivity].
  - destruct (wrapDbMethod_dispatch_or_queue Connection "each"
                [VFun (FUser 1); VFun (FUser 2)] init)
      as (_ & _ & _ & _ & _ & _ & H & _).
    apply H. simpl. lia.
  - destruct (wrapDbMethod_dispatch_or_queue Connection "each"
                [VStr "q"; VNum 1; VFun (FUser 1)] init)
      as (_ & _ & _ & _ & _ & _ & _ & H & _).
    rewrite H by (simpl; lia). reflexivity.
  - destruct (wrapDbMethod_dispatch_or_queue Connection "run" [] init)
      as (_ & _ & _ & _ & _ & _ & _ & _ & H).
    rewrite H by (simpl; lia). reflexivity.
Defined.

(** ** Finishing twice *)

Lemma split_at_begin_none q :
  existsb isBegin q = false -> split_at_begin q = (q, None, []).
Proof.
  induction q as [|item q IH]; intros H; simpl in *; auto.
  destruct item as [a|l o m a]; simpl in H; [discriminate|].
  rewrite (IH H). reflexivity.
Qed.

Lemma installed_dispatch_all items : forall st,
  installed (dispatch_all items st) = installed st.
Proof.
  induction items as [|item items IH]; intros st; simpl; auto.
  rewrite IH. destruct item as [a|[|] o m a]; reflexivity.
Qed.

Lemma nth_set_nth (l : list bool) : forall t,
  (t < List.length l)%nat -> nth t (set_nth t true l) false = true.
Proof.
  induction l as [|x l IH]; intros [|t] H; simpl in *; try lia; auto.
  apply IH. lia.
Qed.

(** Transaction 0 has committed, transaction 1 has begun: [commit] on
    the handle does not report that the transaction is finished, it
    issues COMMIT for transaction 1. *)
Lemma finished_handle_commits_next_transaction :
  is_finished 0 second_begun = true
  /\ handle_commit (VFun (FUser 4)) second_begun
     = Normal (emit (Exec "COMMIT;" (ECommit 1 (VFun (FUser 4))))
                    second_begun)
  /\ handle_commit (VFun (FUser 4)) second_begun
     <> Normal (emit (Called 4 [VError msg_commit]) second_begun).
Proof.
  split; [reflexivity|]. split; [reflexivity|].
  vm_compute. discriminate.
Qed.

(** * Further properties of the same functions *)

(** ** The argument list of a locking call *)

Lemma hijack_shape args :
  exists orig,
    hijack args = (if isFunction (last1 args) then removelast args else args)
                  ++ [VFun (FNewCallback orig)]
    /\ orig = (if isFunction (last1 args) then last1 args else dummyCallback).
Proof.
  unfold hijack. destruct args as [|a args].
  - eexists. split; reflexivity.
  - assert ((0 <? Z.of_nat (List.length (a :: args))) = true) as ->
      by (apply Z.ltb_lt; simpl; lia).
    cbn [andb]. destruct (isFunction (last1 (a :: args)));
      eexists; split; reflexivity.
Qed.

Lemma last1_app_one l v : last1 (l ++ [v]) = v.
Proof. unfold last1. apply last_last. Qed.

Lemma hijack_app_fun l f :
  hijack (l ++ [VFun f]) = l ++ [VFun (FNewCallback (VFun f))].
Proof.
  unfold hijack. rewrite last1_app_one, removelast_last.
  assert ((0 <? Z.of_nat (List.length (l ++ [VFun f]))) = true) as ->
    by (apply Z.ltb_lt; rewrite length_app; simpl; lia).
  reflexivity.
Qed.

Lemma locking_call_ends_with_wrapper_shape (method : string) (args : list Value) :
  mem method lockMethods = true ->
  exists front orig,
    wrapped_args method args = front ++ [VFun (FNewCallback orig)]
    /\ isFunction orig = true
    /\ ((front = removelast args /\ orig = last1 args)
        \/ (front = args /\ orig = dummyCallback)
        \/ (front = args ++ [dummyCallback] /\ orig = dummyCallback
            /\ method = "each")).
Proof.
  intros Hm. unfold wrapped_args. rewrite Hm.
  destruct (String.eqb method "each") eqn:He.
  - apply String.eqb_eq in He. unfold normalize_each.
    destruct ((Z.of_nat (List.length args) <=? 2)
              || (negb (isFunction (last1 args))
                  && negb (isFunction (last2 args)))) eqn:E1.
    + exists (args ++ [dummyCallback]), dummyCallback.
      split; [|split; [reflexivity|auto]].
      change (args ++ [dummyCallback; dummyCallback])
        with (args ++ [dummyCallback] ++ [dummyCallback]).
      rewrite app_assoc. apply hijack_app_fun.
    + destruct (isFunction (last1 args) && negb (isFunction (last2 args)))
        eqn:E2.
      * exists args, dummyCallback.
        split; [|split; [reflexivity|auto]].
        apply hijack_app_fun.
      * destruct (hijack_shape args) as (orig & Hh & Ho).
        destruct (isFunction (last1 args)) eqn:F.
        -- exists (removelast args), orig. subst orig. auto.
        -- exists args, orig. subst orig.
           split; [exact Hh|]. split; [reflexivity|auto].
  - destruct (hijack_shape args) as (orig & Hh & Ho).
    destruct (isFunction (last1 args)) eqn:F.
    + exists (removelast args), orig. subst orig. auto.
    + exists args, orig. subst orig.
      split; [exact Hh|]. split; [reflexivity|auto].
Qed.

(** X1.  Whatever the arguments of a call of a locking method, the
    argument list that is dispatched or queued ends with exactly one new
    wrapper, around a function; before it stand the caller's arguments
    in their order, with at most one [dummyCallback] after them, or the
    caller's arguments without the last when that one is what the
    wrapper is around. *)
Theorem locking_call_ends_with_wrapper (method : string) (args : list Value) :
  mem method lockMethods = true ->
  exists front orig,
    wrapped_args method args = front ++ [VFun (FNewCallback orig)]
    /\ isFunction orig = true
    /\ ((front = removelast args /\ orig = last1 args)
        \/ (front = args /\ orig = dummyCallback)
        \/ (front = args ++ [dummyCallback] /\ orig = dummyCallback
            /\ method = "each")).
Proof. exact (locking_call_ends_with_wrapper_shape method args). Qed.

Lemma locking_call_ends_with_wrapper_witness :
  exists front orig,
    wrapped_args "each" [VStr "q"; VFun (FUser 1)]
    = front ++ [VFun (FNewCallback orig)]
    /\ isFunction orig = true
    /\ ((front = removelast [VStr "q"; VFun (FUser 1)]
         /\ orig = last1 [VStr "q"; VFun (FUser 1)])
        \/ (front = [VStr "q"; VFun (FUser 1)] /\ orig = dummyCallback)
        \/ (front = [VStr "q"; VFun (FUser 1)] ++ [dummyCallback]
            /\ orig = dummyCallback /\ "each" = "each")).
Proof.
  apply (locking_call_ends_with_wrapper "each" [VStr "q"; VFun (FUser 1)]).
  reflexivity.
Defined.

(** ** A locking call and its completion *)






(** ** Calls made while a transaction is open *)

Lemma run_calls_queued calls : forall st,
  currentTransaction st <> None ->
  run (map call_event calls) st
  = set_queue (queue st ++ map op_of calls) st.
Proof.
  induction calls as [|[[o m] a] calls IH]; intros st Hc.
  - simpl. rewrite app_nil_r. destruct st; reflexivity.
  - cbn [map run call_event step]. unfold wrapDbMethod.
    destruct (currentTransaction st) eqn:E; [|congruence].
    cbn [final]. rewrite IH by (simpl; congruence).
    cbn [queue set_queue op_of]. rewrite set_queue_twice, <- app_assoc.
    reflexivity.
Qed.

Lemma run_calls_dispatched calls : forall st,
  currentTransaction st = None ->
  run (map call_event calls) st = dispatch_all (map op_of calls) st.
Proof.
  induction calls as [|[[o m] a] calls IH]; intros st Hc.
  - reflexivity.
  - cbn [map run call_event step]. unfold wrapDbMethod. rewrite Hc.
    cbn [final]. rewrite IH.
    + reflexivity.
    + unfold lock_if. destruct (mem m lockMethods); exact Hc.
Qed.

Lemma no_begin_in_calls calls : existsb isBegin (map op_of calls) = false.
Proof.
  induction calls as [|[[o m] a] calls IH]; simpl; auto.
Qed.

Lemma queue_dispatch_all items : forall st,
  queue (dispatch_all items st) = queue st.
Proof.
  induction items as [|item items IH]; intros st; simpl; auto.
  rewrite IH. destruct item as [a|[|] o m a]; reflexivity.
Qed.

Lemma set_queue_same q st : queue st = q -> set_queue q st = st.
Proof. intros <-. destruct st; reflexivity. Qed.

(** X3.  Calls of wrapped methods made while a transaction is current
    are not dispatched: they are all queued, in the order of the calls.
    The drain that follows the end of the transaction then leaves the
    wrapper in the very state the same calls would have produced had
    they been made with no transaction current: the driver gets the same
    calls with the same arguments in the same order, and the counter of
    locks is raised as often. *)
Theorem deferred_calls_run_as_if_idle (calls : list Invocation) (st : State) :
  currentTransaction st <> None ->
  queue st = [] ->
  run (map call_event calls) st = set_queue (map op_of calls) st
  /\ _runQueue (set_currentTransaction None (run (map call_event calls) st))
     = Normal (run (map call_event calls) (set_currentTransaction None st))
  /\ out (run (map call_event calls) (set_currentTransaction None st))
     = out st ++ flat_map effect_of (map op_of calls).
Proof.
  intros Hc Hq.
  assert (E : run (map call_event calls) st = set_queue (map op_of calls) st).
  { rewrite run_calls_queued by exact Hc. rewrite Hq. reflexivity. }
  split; [exact E|]. split.
  - rewrite E. unfold _runQueue.
    rewrite runQueue_loop_drain by reflexivity.
    cbn [queue set_queue set_currentTransaction].
    rewrite (split_at_begin_none _ (no_begin_in_calls calls)). cbv zeta.
    rewrite run_calls_dispatched by reflexivity.
    change (set_currentTransaction None (set_queue (map op_of calls) st))
      with (set_queue (map op_of calls) (set_currentTransaction None st)).
    rewrite dispatch_all_set_queue, set_queue_twice.
    rewrite set_queue_same; [reflexivity|].
    rewrite queue_dispatch_all. exact Hq.
  - rewrite run_calls_dispatched by reflexivity.
    rewrite out_dispatch_all. reflexivity.
Qed.

Lemma deferred_calls_run_as_if_idle_witness :
  run (map call_event [(Connection, "run", [VStr "a"]);
                       (Statement 0, "bind", [VNum 1])]) active
  = set_queue (map op_of [(Connection, "run", [VStr "a"]);
                          (Statement 0, "bind", [VNum 1])]) active
  /\ out (run (map call_event [(Connection, "run", [VStr "a"]);
                               (Statement 0, "bind", [VNum 1])])
              (set_currentTransaction None active))
     = [Dispatched Connection "run"
          [VStr "a"; VFun (FNewCallback dummyCallback)];
        Dispatched (Statement 0) "bind" [VNum 1]].
Proof.
  assert (Hc : currentTransaction active <> None) by discriminate.
  destruct (deferred_calls_run_as_if_idle
              [(Connection, "run", [VStr "a"]);
               (Statement 0, "bind", [VNum 1])] active Hc eq_refl)
    as (H1 & _ & H3).
  split; [exact H1 | exact H3].
Defined.

(** ** A queued [beginTransaction] and the locks of the drain *)

Lemma lock_dispatch_all items : forall st,
  _lock (dispatch_all items st) = _lock st + locks_of items.
Proof.
  induction items as [|item items IH]; intros st.
  - simpl. lia.
  - rewrite dispatch_all_cons, IH.
    destruct item as [a|[|] o m a];
      cbn [locks_of dispatch_op _lock emit lock_if set_lock]; lia.
Qed.

Lemma timers_dispatch_all items : forall st,
  timers (dispatch_all items st) = timers st.
Proof.
  induction items as [|item items IH]; intros st; simpl; auto.
  rewrite IH. destruct item as [a|[|] o m a]; reflexivity.
Qed.

Lemma locks_of_nonneg items : 0 <= locks_of items.
Proof.
  induction items as [|item items IH]; [simpl; lia|].
  destruct item as [a|[|] o m a]; cbn [locks_of]; lia.
Qed.

(** X4.  A drain that reaches a queued [beginTransaction] behind entries
    [pre] leaves the counter raised by the number of 'lock' entries in
    [pre].  The BEGIN of the new transaction is issued in the drain only
    if the counter is then zero; otherwise nothing is issued and a timer
    is set, so that BEGIN waits for the completions of the calls that the
    drain has just dispatched. *)
Theorem queued_begin_waits_for_drained_locks
  (st : State) (pre post : list PendingOp) (args : list Value) :
  currentTransaction st = None ->
  queue st = pre ++ Begin args :: post ->
  existsb isBegin pre = false ->
  let t := List.length (finished st) in
  let k := KBegin t (hd VUndefined args) in
  exists st',
    _runQueue st = Normal st'
    /\ _lock st' = _lock st + locks_of pre
    /\ (_lock st + locks_of pre = 0 ->
        out st' = out st ++ flat_map effect_of pre
                  ++ [Exec "BEGIN;" (EBegin t (hd VUndefined args))]
        /\ timers st' = timers st)
    /\ (_lock st + locks_of pre <> 0 ->
        out st' = out st ++ flat_map effect_of pre
        /\ timers st' = timers st ++ [(k, poll_delay)]).
Proof.
  intros Hc Hq Hpre t k.
  unfold _runQueue. rewrite runQueue_loop_drain by reflexivity.
  rewrite Hq, split_at_begin_first by exact Hpre. cbv zeta.
  unfold beginTransaction.
  cbn [currentTransaction set_queue]. rewrite currentTransaction_dispatch_all, Hc.
  cbn [finished set_queue]. rewrite finished_dispatch_all.
  fold t. fold k. unfold _wait, check.
  cbn [_lock set_installed set_currentTransaction set_finished set_queue].
  rewrite lock_dispatch_all.
  destruct (_lock st + locks_of pre =? 0) eqn:E.
  - apply Z.eqb_eq in E. eexists. split; [reflexivity|].
    cbn [wait_callback _exec final _lock out timers emit set_installed
           set_currentTransaction set_finished set_queue].
    rewrite lock_dispatch_all, out_dispatch_all, timers_dispatch_all.
    split; [reflexivity|]. split.
    + intros _. rewrite app_assoc. split; reflexivity.
    + intros H. congruence.
  - apply Z.eqb_neq in E. eexists. split; [reflexivity|].
    cbn [_lock out timers set_timers set_installed
           set_currentTransaction set_finished set_queue].
    rewrite lock_dispatch_all, out_dispatch_all, timers_dispatch_all.
    split; [reflexivity|]. split.
    + intros H. congruence.
    + intros _. split; reflexivity.
Qed.

Lemma queued_begin_waits_for_drained_locks_witness :
  exists st',
    _runQueue after_first = Normal st'
    /\ _lock st' = 1
    /\ out st' = flat_map effect_of [opA; opB]
    /\ timers st' = [(KBegin 1 (VFun (FUser 2)), poll_delay)].
Proof.
  destruct (queued_begin_waits_for_drained_locks after_first [opA; opB]
              [opC] [VFun (FUser 2)] eq_refl eq_refl eq_refl)
    as (st' & H & Hl & _ & Hw).
  exists st'. split; [exact H|]. split; [exact Hl|].
  apply Hw. simpl. lia.
Defined.

(** ** The end of a transaction *)

Lemma length_set_nth {A} (x : A) (l : list A) : forall n,
  List.length (set_nth n x l) = List.length l.
Proof.
  induction l as [|y l IH]; intros [|n]; simpl; auto.
Qed.

Lemma is_finished_emit t e st : is_finished t (emit e st) = is_finished t st.
Proof. reflexivity. Qed.

(** X5.  With a transaction open, no lock held and no [Begin] queued,
    [rollback(cb)] issues ROLLBACK; when that completes, with an error or
    without, the transaction is finished, no transaction is current, the
    queued calls have been dispatched in their order, and only then is
    [cb] called, with the outcome of ROLLBACK as it came. *)
Theorem rollback_finishes_whatever_the_outcome
  (t c : nat) (r : Value) (st : State) :
  installed st = Some t ->
  is_finished t st = false ->
  (t < List.length (finished st))%nat ->
  _lock st = 0 ->
  existsb isBegin (queue st) = false ->
  handle_rollback (VFun (FUser c)) st
  = Normal (emit (Exec "ROLLBACK;" (ERollback t (VFun (FUser c)))) st)
  /\ exists st2,
       exec_callback (ERollback t (VFun (FUser c))) r
         (emit (Exec "ROLLBACK;" (ERollback t (VFun (FUser c)))) st)
       = Normal st2
       /\ out st2
          = out st ++ [Exec "ROLLBACK;" (ERollback t (VFun (FUser c)))]
            ++ flat_map effect_of (queue st) ++ [Called c [r]]
       /\ currentTransaction st2 = None
       /\ queue st2 = []
       /\ is_finished t st2 = true
       /\ _lock st2 = locks_of (queue st).
Proof.
  intros Hi Hf Ht Hl Hq. split.
  - unfold handle_rollback, rollback, _wait, check. rewrite Hi, Hf, Hl.
    reflexivity.
  - cbn [exec_callback]. unfold finishTransaction, _runQueue.
    rewrite runQueue_loop_drain by reflexivity.
    cbn [queue emit set_finished set_currentTransaction].
    rewrite (split_at_begin_none _ Hq). cbv zeta.
    eexists. split; [reflexivity|].
    cbn [out emit set_queue currentTransaction queue _lock].
    rewrite out_dispatch_all, currentTransaction_dispatch_all,
      lock_dispatch_all.
    unfold is_finished. cbn [finished emit set_queue].
    rewrite finished_dispatch_all.
    cbn [out finished currentTransaction _lock emit set_currentTransaction
           set_finished].
    rewrite nth_set_nth by exact Ht. rewrite Hl.
    repeat split; auto. rewrite <- !app_assoc. reflexivity.
Qed.

Lemma rollback_finishes_whatever_the_outcome_witness :
  handle_rollback (VFun (FUser 3)) active
  = Normal (emit (Exec "ROLLBACK;" (ERollback 0 (VFun (FUser 3)))) active)
  /\ exists st2,
       exec_callback (ERollback 0 (VFun (FUser 3))) (VError "busy")
         (emit (Exec "ROLLBACK;" (ERollback 0 (VFun (FUser 3)))) active)
       = Normal st2
       /\ out st2
          = out active ++ [Exec "ROLLBACK;" (ERollback 0 (VFun (FUser 3)))]
            ++ flat_map effect_of (queue active)
            ++ [Called 3 [VError "busy"]]
       /\ currentTransaction st2 = None
       /\ queue st2 = []
       /\ is_finished 0 st2 = true
       /\ _lock st2 = locks_of (queue active).
Proof.
  apply (rollback_finishes_whatever_the_outcome 0 3 (VError "busy") active);
    try reflexivity.
  simpl. lia.
Defined.

(** X6.  When COMMIT succeeds while a [beginTransaction] is queued behind
    entries that hold no lock, the drain dispatches those entries and
    issues the BEGIN of the queued transaction before the callback of
    [commit] is called: at the time that callback runs, the finished
    transaction is marked finished, the new one is current and the
    functions on the handle are the new one's. *)
Theorem commit_success_hands_over_to_queued_begin
  (t c : nat) (st : State) (pre post : list PendingOp) (args : list Value) :
  (t < List.length (finished st))%nat ->
  queue st = pre ++ Begin args :: post ->
  existsb isBegin pre = false ->
  _lock st + locks_of pre = 0 ->
  let t' := List.length (finished st) in
  exists st2,
    exec_callback (ECommit t (VFun (FUser c))) VNull st = Normal st2
    /\ out st2
       = out st ++ flat_map effect_of pre
         ++ [Exec "BEGIN;" (EBegin t' (hd VUndefined args)); Called c [VNull]]
    /\ queue st2 = post
    /\ currentTransaction st2 = Some Connection
    /\ installed st2 = Some t'
    /\ is_finished t st2 = true
    /\ is_finished t' st2 = false.
Proof.
  intros Ht Hq Hpre Hl t'.
  cbn [exec_callback truthy]. unfold finishTransaction, _runQueue.
  rewrite runQueue_loop_drain by reflexivity.
  cbn [queue set_finished set_currentTransaction].
  rewrite Hq, split_at_begin_first by exact Hpre. cbv zeta.
  unfold beginTransaction.
  cbn [currentTransaction set_queue]. rewrite currentTransaction_dispatch_all.
  cbn [currentTransaction set_currentTransaction finished set_queue].
  rewrite finished_dispatch_all.
  cbn [finished set_currentTransaction set_finished].
  rewrite length_set_nth. fold t'.
  unfold _wait, check.
  cbn [_lock set_installed set_currentTransaction set_finished set_queue].
  rewrite lock_dispatch_all.
  cbn [_lock set_currentTransaction set_finished]. rewrite Hl.
  cbn [Z.eqb wait_callback _exec bind call invoke].
  eexists. split; [reflexivity|].
  unfold is_finished.
  cbn [out queue currentTransaction installed finished emit set_installed
         set_currentTransaction set_finished set_queue].
  rewrite out_dispatch_all.
  cbn [out set_currentTransaction set_finished].
  repeat split.
  - rewrite <- !app_assoc. reflexivity.
  - rewrite app_nth1 by (rewrite length_set_nth; exact Ht).
    apply nth_set_nth; exact Ht.
  - rewrite app_nth2 by (rewrite length_set_nth; unfold t'; lia).
    rewrite length_set_nth. unfold t'. rewrite Nat.sub_diag. reflexivity.
Qed.

Lemma commit_success_hands_over_to_queued_begin_witness :
  exists st2,
    exec_callback (ECommit 0 (VFun (FUser 9))) VNull
      (set_queue [opB; begin2; opC] active) = Normal st2
    /\ out st2
       = [Dispatched Connection "close" [];
          Exec "BEGIN;" (EBegin 1 (VFun (FUser 2))); Called 9 [VNull]]
    /\ queue st2 = [opC]
    /\ currentTransaction st2 = Some Connection
    /\ installed st2 = Some 1%nat
    /\ is_finished 0 st2 = true
    /\ is_finished 1 st2 = false.
Proof.
  assert (Hlt : (0 < List.length (finished (set_queue [opB; begin2; opC]
                                                      active)))%nat)
    by (simpl; lia).
  exact (commit_success_hands_over_to_queued_begin 0 9
           (set_queue [opB; begin2; opC] active) [opB] [opC]
           [VFun (FUser 2)] Hlt eq_refl eq_refl eq_refl).
Defined.

(** ** Functions that always return *)

Lemma fine_check k st : exists st', check k st = Normal st'.
Proof.
  unfold check. destruct (_lock st =? 0); [destruct k|]; simpl;
    unfold _exec; eauto.
Qed.

Lemma beginTransaction_returns args st :
  exists st', beginTransaction args st = Normal st'.
Proof.
  unfold beginTransaction. destruct (currentTransaction st); eauto.
  unfold _wait. apply fine_check.
Qed.

Lemma runQueue_returns st : exists st', _runQueue st = Normal st'.
Proof.
  unfold _runQueue. rewrite runQueue_loop_drain by reflexivity.
  destruct (split_at_begin (queue st)) as [[pre b] post]. cbv zeta.
  destruct b; eauto. apply beginTransaction_returns.
Qed.

(** ** Transactions over a run *)

Lemma keeps_refl st : keeps_transactions st st.
Proof. unfold keeps_transactions. auto. Qed.

Lemma keeps_trans a b c :
  keeps_transactions a b -> keeps_transactions b c -> keeps_transactions a c.
Proof.
  unfold keeps_transactions. intros (L1 & F1 & W1) (L2 & F2 & W2).
  repeat split; auto. lia.
Qed.

Lemma keeps_same st st' :
  finished st' = finished st -> installed st' = installed st ->
  keeps_transactions st st'.
Proof.
  intros Hf Hi. unfold keeps_transactions, is_finished, installed_exists.
  rewrite Hf, Hi. auto.
Qed.

Lemma same_check k st :
  finished (final (check k st)) = finished st
  /\ installed (final (check k st)) = installed st.
Proof.
  unfold check. destruct (_lock st =? 0); [destruct k|]; split; reflexivity.
Qed.

Lemma same_on_db_error st :
  finished (final (on_db_error st)) = finished st
  /\ installed (final (on_db_error st)) = installed st.
Proof.
  unfold on_db_error.
  destruct (db_currentTransaction st); auto.
  destruct (installed st) eqn:E; auto.
  destruct (is_finished n st); auto.
  destruct (same_check (KRollback n (VFun FNoop)) st) as (H1 & H2).
  unfold _wait. rewrite H1, H2. auto.
Qed.

Lemma same_invoke f : forall args st,
  finished (final (invoke f args st)) = finished st
  /\ installed (final (invoke f args st)) = installed st.
Proof.
  induction f using Func_Value_ind
    with (P := fun v => forall args st,
                 finished (final (call v args st)) = finished st
                 /\ installed (final (call v args st)) = installed st);
    intros args st; simpl; auto.
  - destruct (truthy (hd VUndefined args)); auto.
    unfold db_emit_error. apply (same_on_db_error (emit _ st)).
  - destruct (_lock st <? 1); auto.
    specialize (IHf args (set_lock (_lock st - 1) st)).
    destruct orig; auto.
Qed.

Lemma same_call v args st :
  finished (final (call v args st)) = finished st
  /\ installed (final (call v args st)) = installed st.
Proof. destruct v; simpl; auto. apply same_invoke. Qed.

Lemma keeps_call v args st : keeps_transactions st (final (call v args st)).
Proof. destruct (same_call v args st). apply keeps_same; auto. Qed.

Lemma keeps_check k st : keeps_transactions st (final (check k st)).
Proof. destruct (same_check k st). apply keeps_same; auto. Qed.

Lemma nth_app_false (l : list bool) t :
  nth t l false = true -> nth t (l ++ [false]) false = true.
Proof.
  intros H. destruct (Nat.lt_ge_cases t (List.length l)) as [Hlt|Hge].
  - rewrite app_nth1; auto.
  - rewrite nth_overflow in H by exact Hge. discriminate.
Qed.

Lemma nth_set_nth_true (l : list bool) : forall t u,
  nth t l false = true -> nth t (set_nth u true l) false = true.
Proof.
  induction l as [|x l IH]; intros [|t] [|u] H; simpl in *; auto.
Qed.

Lemma keeps_beginTransaction args st :
  keeps_transactions st (final (beginTransaction args st)).
Proof.
  unfold beginTransaction. destruct (currentTransaction st).
  - apply keeps_same; reflexivity.
  - eapply keeps_trans; [|apply keeps_check].
    unfold keeps_transactions, is_finished, installed_exists.
    cbn [finished installed set_installed set_currentTransaction
           set_finished].
    rewrite length_app. cbn [List.length].
    repeat split; try lia. intros t. apply nth_app_false.
Qed.

Lemma keeps_finish t st :
  keeps_transactions st
    (set_currentTransaction None
       (set_finished (set_nth t true (finished st)) st)).
Proof.
  unfold keeps_transactions, is_finished, installed_exists.
  cbn [finished installed set_currentTransaction set_finished].
  rewrite length_set_nth. repeat split; auto.
  intros u. apply nth_set_nth_true.
Qed.

Lemma keeps_runQueue st : keeps_transactions st (final (_runQueue st)).
Proof.
  unfold _runQueue. rewrite runQueue_loop_drain by reflexivity.
  destruct (split_at_begin (queue st)) as [[pre b] post]. cbv zeta.
  assert (K : keeps_transactions st (set_queue post (dispatch_all pre st))).
  { apply keeps_same; cbn [finished installed set_queue].
    - apply finished_dispatch_all.
    - apply installed_dispatch_all. }
  destruct b as [args|]; [|exact K].
  eapply keeps_trans; [exact K | apply keeps_beginTransaction].
Qed.

Lemma keeps_finishTransaction t e cb st :
  keeps_transactions st (final (finishTransaction t e cb st)).
Proof.
  unfold finishTransaction.
  eapply keeps_trans; [apply (keeps_finish t)|].
  set (s1 := set_currentTransaction None _).
  pose proof (keeps_runQueue s1) as K.
  destruct (_runQueue s1) as [s2|x s2]; cbn [bind final] in *; auto.
  eapply keeps_trans; [exact K | apply keeps_call].
Qed.

Lemma keeps_rollback t cb st :
  keeps_transactions st (final (rollback t cb st)).
Proof.
  unfold rollback. destruct (is_finished t st);
    [apply keeps_call | apply keeps_check].
Qed.

Lemma keeps_commit t cb st :
  keeps_transactions st (final (commit t cb st)).
Proof.
  unfold commit. destruct (is_finished t st);
    [apply keeps_call | apply keeps_check].
Qed.

Lemma keeps_step ev st : keeps_transactions st (final (step ev st)).
Proof.
  destruct ev; cbn [step].
  - unfold wrapDbMethod. destruct (currentTransaction st);
      apply keeps_same; try reflexivity;
      unfold lock_if; destruct (mem method lockMethods); reflexivity.
  - apply keeps_beginTransaction.
  - unfold handle_commit. destruct (installed st);
      [apply keeps_commit | apply keeps_refl].
  - unfold handle_rollback. destruct (installed st);
      [apply keeps_rollback | apply keeps_refl].
  - unfold timer_fire. destruct (nth_error (timers st) i) as [[k d]|];
      [|apply keeps_refl].
    eapply keeps_trans; [|apply keeps_check].
    apply keeps_same; reflexivity.
  - destruct k; cbn [exec_callback].
    + destruct (truthy err); apply keeps_call.
    + destruct (truthy err); [|apply keeps_finishTransaction].
      unfold handle_rollback. destruct (installed st);
        [apply keeps_rollback | apply keeps_refl].
    + apply keeps_finishTransaction.
  - destruct (same_invoke f args st). apply keeps_same; auto.
  - destruct (same_on_db_error st). apply keeps_same; auto.
Qed.

Lemma keeps_run evs : forall st, keeps_transactions st (run evs st).
Proof.
  induction evs as [|ev evs IH]; intros st; simpl.
  - apply keeps_refl.
  - eapply keeps_trans; [apply keeps_step | apply IH].
Qed.

(** ** Finishing twice, over a run *)

Lemma finished_rejects_later (t : nat) (st : State) (more : list Event) :
  is_finished t st = true ->
  installed (run more st) = Some t ->
  forall cb,
    handle_commit cb (run more st)
    = call cb [VError msg_commit] (run more st)
    /\ handle_rollback cb (run more st)
       = call cb [VError msg_rollback] (run more st).
Proof.
  intros Hf Hi cb.
  destruct (keeps_run more st) as (_ & F & _).
  unfold handle_commit, handle_rollback, commit, rollback.
  rewrite Hi, (F t Hf). split; reflexivity.
Qed.

Lemma finishTransaction_finishes (t c : nat) (e : Value) (st : State) :
  (t < List.length (finished st))%nat ->
  exists s,
    finishTransaction t e (VFun (FUser c)) st
    = Normal (emit (Called c [e]) s)
    /\ is_finished t (emit (Called c [e]) s) = true
    /\ currentTransaction s = currentTransaction (emit (Called c [e]) s).
Proof.
  intros Ht. unfold finishTransaction.
  set (s1 := set_currentTransaction None _).
  assert (F1 : is_finished t s1 = true).
  { unfold is_finished, s1.
    cbn [finished set_currentTransaction set_finished].
    apply nth_set_nth; exact Ht. }
  destruct (runQueue_returns s1) as (s2 & E).
  destruct (keeps_runQueue s1) as (_ & F & _). rewrite E in F.
  rewrite E. exists s2. cbn [bind call invoke].
  split; [reflexivity|]. split; [|reflexivity].
  apply (F t F1).
Qed.

(** C6, amended.  The handle is the connection object, the same for
    every transaction, and each [beginTransaction] that starts a
    transaction puts its own [commit] and [rollback] on it.  As long as
    the functions on the handle are those of a transaction that has
    finished, that is, as long as no later transaction has been started,
    [commit(cb)] and [rollback(cb)] call [cb] at once with the error
    'Transaction is already ...' and do nothing else, whatever turns have
    come in between, calls and completions of [rollback] among them.  A
    transaction is finished by the success of its COMMIT and by the
    completion of its ROLLBACK: a [commit] on an unfinished transaction
    is taken on, its callback gets no error when COMMIT succeeds, and
    any [commit] or [rollback] after that gets the error. *)
Theorem finished_handle_rejects (t : nat) (evs : list Event) :
  installed (run evs init) = Some t ->
  (is_finished t (run evs init) = true ->
   forall more,
     installed (run more (run evs init)) = Some t ->
     forall cb,
       handle_commit cb (run more (run evs init))
       = call cb [VError msg_commit] (run more (run evs init))
       /\ handle_rollback cb (run more (run evs init))
          = call cb [VError msg_rollback] (run more (run evs init))
       /\ forall id args,
            call (VFun (FUser id)) args (run more (run evs init))
            = Normal (emit (Called id args) (run more (run evs init))))
  /\ (is_finished t (run evs init) = false ->
      forall c1,
        handle_commit (VFun (FUser c1)) (run evs init)
        = _wait (KCommit t (VFun (FUser c1))) (run evs init))
  /\ (forall c r s0,
        (t < List.length (finished s0))%nat ->
        exists s,
          exec_callback (ERollback t (VFun (FUser c))) r s0
          = Normal (emit (Called c [r]) s)
          /\ is_finished t (emit (Called c [r]) s) = true)
  /\ (forall c1,
        exists s,
          exec_callback (ECommit t (VFun (FUser c1))) VNull (run evs init)
          = Normal (emit (Called c1 [VNull]) s)
          /\ is_finished t (emit (Called c1 [VNull]) s) = true
          /\ forall more,
               installed (run more (emit (Called c1 [VNull]) s)) = Some t ->
               forall cb,
                 handle_commit cb (run more (emit (Called c1 [VNull]) s))
                 = call cb [VError msg_commit]
                     (run more (emit (Called c1 [VNull]) s))
                 /\ handle_rollback cb
                      (run more (emit (Called c1 [VNull]) s))
                    = call cb [VError msg_rollback]
                        (run more (emit (Called c1 [VNull]) s))).
Proof.
  intros Hi.
  assert (Ht : (t < List.length (finished (run evs init)))%nat).
  { destruct (keeps_run evs init) as (_ & _ & W).
    specialize (W I). unfold installed_exists in W.
    rewrite Hi in W. exact W. }
  split; [|split; [|split]].
  - intros Hf more Hm cb.
    destruct (finished_rejects_later t _ more Hf Hm cb) as (Hc & Hr).
    split; [exact Hc|]. split; [exact Hr|]. reflexivity.
  - intros Hf c1. unfold handle_commit, commit. rewrite Hi, Hf.
    reflexivity.
  - intros c r s0 Hlt. cbn [exec_callback].
    destruct (finishTransaction_finishes t c r s0 Hlt) as (s & E & F & _).
    exists s. split; [exact E | exact F].
  - intros c1. cbn [exec_callback truthy].
    destruct (finishTransaction_finishes t c1 VNull _ Ht) as (s & E & F & _).
    exists s. split; [exact E|]. split; [exact F|].
    intros more Hm cb. exact (finished_rejects_later t _ more F Hm cb).
Qed.

Lemma finished_handle_rejects_witness :
  handle_commit (VFun (FUser 9))
    (run [EvRollback (VFun (FUser 8));
          EvExecDone (ERollback 0 (VFun (FUser 8))) (VError "e")]
         (run [EvBegin [VFun (FUser 1)];
               EvExecDone (EBegin 0 (VFun (FUser 1))) VNull;
               EvCommit (VFun (FUser 2));
               EvExecDone (ECommit 0 (VFun (FUser 2))) VNull] init))
  = Normal (emit (Called 9 [VError msg_commit])
      (run [EvRollback (VFun (FUser 8));
            EvExecDone (ERollback 0 (VFun (FUser 8))) (VError "e")]
           (run [EvBegin [VFun (FUser 1)];
                 EvExecDone (EBegin 0 (VFun (FUser 1))) VNull;
                 EvCommit (VFun (FUser 2));
                 EvExecDone (ECommit 0 (VFun (FUser 2))) VNull] init)))
  /\ handle_commit (VFun (FUser 2)) begun
     = _wait (KCommit 0 (VFun (FUser 2))) begun
  /\ exists s,
       exec_callback (ECommit 0 (VFun (FUser 2))) VNull begun
       = Normal (emit (Called 2 [VNull]) s)
       /\ is_finished 0 (emit (Called 2 [VNull]) s) = true.
Proof.
  destruct (finished_handle_rejects 0
              [EvBegin [VFun (FUser 1)];
               EvExecDone (EBegin 0 (VFun (FUser 1))) VNull;
               EvCommit (VFun (FUser 2));
               EvExecDone (ECommit 0 (VFun (FUser 2))) VNull] eq_refl)
    as (H1 & _).
  destruct (H1 eq_refl
              [EvRollback (VFun (FUser 8));
               EvExecDone (ERollback 0 (VFun (FUser 8))) (VError "e")]
              eq_refl (VFun (FUser 9))) as (Hc & _ & Hu).
  destruct (finished_handle_rejects 0
              [EvBegin [VFun (FUser 1)];
               EvExecDone (EBegin 0 (VFun (FUser 1))) VNull] eq_refl)
    as (_ & H2 & _ & H4).
  split; [|split].
  - rewrite Hc. apply Hu.
  - apply (H2 eq_refl 2%nat).
  - destruct (H4 2%nat) as (s & E & F & _). exists s. split; assumption.
Defined.

(** X8.  Over any sequence of turns the [finished] variable of a
    transaction, once set, stays set; activations are never forgotten;
    and the functions [commit] and [rollback] on the handle always
    belong to an activation that exists, from the first
    [beginTransaction] on. *)
Theorem finished_transactions_stay_finished (evs : list Event) (st : State) :
  (List.length (finished st) <= List.length (finished (run evs st)))%nat
  /\ (forall t, is_finished t st = true -> is_finished t (run evs st) = true)
  /\ (installed_exists st -> installed_exists (run evs st))
  /\ installed_exists (run evs init).
Proof.
  destruct (keeps_run evs st) as (L & F & W).
  repeat split; auto.
  destruct (keeps_run evs init) as (_ & _ & W0). apply W0. exact I.
Qed.

Lemma finished_transactions_stay_finished_witness :
  is_finished 0 (run [EvBegin [VFun (FUser 3)];
                      EvExecDone (EBegin 1 (VFun (FUser 3))) VNull;
                      EvRollback VNull] after_first) = true
  /\ installed_exists (run [EvBegin []; EvCommit VNull] after_first).
Proof.
  destruct (finished_transactions_stay_finished
              [EvBegin [VFun (FUser 3)];
               EvExecDone (EBegin 1 (VFun (FUser 3))) VNull;
               EvRollback VNull] after_first) as (_ & F & _).
  destruct (finished_transactions_stay_finished
              [EvBegin []; EvCommit VNull] after_first) as (_ & _ & W & _).
  split.
  - apply F. reflexivity.
  - apply W. unfold installed_exists, after_first. simpl. lia.
Defined.

(** ** One transaction from start to end *)

Lemma set_nth_last {A} (x y : A) (l : list A) :
  set_nth (List.length l) x (l ++ [y]) = l ++ [x].
Proof.
  induction l as [|z l IH]; simpl; auto. rewrite IH. reflexivity.
Qed.

Lemma nth_last_false (l : list bool) :
  nth (List.length l) (l ++ [false]) false = false.
Proof.
  rewrite app_nth2 by lia. rewrite Nat.sub_diag. reflexivity.
Qed.

(** X9.  From a state with no transaction current, no lock held and an
    empty queue, [beginTransaction(c1)], the success of BEGIN,
    [commit(c2)] and the success of COMMIT issue exactly BEGIN and
    COMMIT, call [c1] with no error and the handle, then [c2] with no
    error, and leave the wrapper as it was but for the finished
    transaction: no transaction current, no lock, nothing queued, no
    timer added. *)
Theorem transaction_cycle_returns_to_idle (c1 c2 : nat) (st : State) :
  currentTransaction st = None ->
  _lock st = 0 ->
  queue st = [] ->
  let t := List.length (finished st) in
  run [EvBegin [VFun (FUser c1)];
       EvExecDone (EBegin t (VFun (FUser c1))) VNull;
       EvCommit (VFun (FUser c2));
       EvExecDone (ECommit t (VFun (FUser c2))) VNull] st
  = mkState 0 [] None (finished st ++ [true]) (Some t)
      (db_currentTransaction st) (timers st)
      (out st ++ [Exec "BEGIN;" (EBegin t (VFun (FUser c1)));
                  Called c1 [VNull; VObj Connection];
                  Exec "COMMIT;" (ECommit t (VFun (FUser c2)));
                  Called c2 [VNull]]).
Proof.
  intros Hc Hl Hq t. destruct st as [l q c f i d ts o].
  cbn [currentTransaction _lock queue finished] in *. subst l q c.
  subst t. simpl. unfold handle_commit, commit, is_finished. simpl.
  rewrite nth_last_false. simpl.
  unfold finishTransaction, _runQueue. simpl. rewrite set_nth_last.
  cbv [emit set_currentTransaction set_finished set_installed _lock queue
         currentTransaction finished installed db_currentTransaction
         timers out].
  rewrite <- !app_assoc. reflexivity.
Qed.

Lemma transaction_cycle_returns_to_idle_witness :
  run [EvBegin [VFun (FUser 1)];
       EvExecDone (EBegin 0 (VFun (FUser 1))) VNull;
       EvCommit (VFun (FUser 2));
       EvExecDone (ECommit 0 (VFun (FUser 2))) VNull] init
  = mkState 0 [] None [true] (Some 0%nat) None []
      [Exec "BEGIN;" (EBegin 0 (VFun (FUser 1)));
       Called 1 [VNull; VObj Connection];
       Exec "COMMIT;" (ECommit 0 (VFun (FUser 2)));
       Called 2 [VNull]].
Proof.
  exact (transaction_cycle_returns_to_idle 1 2 init eq_refl eq_refl eq_refl).
Defined.

(** ** [beginTransaction] while locks are held *)

(** X10.  [beginTransaction] called with no transaction current but
    with locks held issues nothing: it makes the new transaction current
    at once and sets a timer.  From then on calls of wrapped methods are
    queued, not dispatched.  When the timer fires with the counter at
    zero, BEGIN is issued with the callback of that [beginTransaction];
    when it fires with the counter not at zero, the timer is set again. *)
Theorem begin_waits_for_outstanding_locks (args : list Value) (st : State) :
  currentTransaction st = None ->
  _lock st <> 0 ->
  let t := List.length (finished st) in
  let k := KBegin t (hd VUndefined args) in
  exists st1,
    beginTransaction args st = Normal st1
    /\ out st1 = out st
    /\ timers st1 = timers st ++ [(k, poll_delay)]
    /\ currentTransaction st1 = Some Connection
    /\ (forall c, wrapDbMethod (fst (fst c)) (snd (fst c)) (snd c) st1
                  = Normal (set_queue (queue st1 ++ [op_of c]) st1))
    /\ (forall s i d,
          nth_error (timers s) i = Some (k, d) ->
          (_lock s = 0 ->
           timer_fire i s
           = Normal (emit (Exec "BEGIN;" (EBegin t (hd VUndefined args)))
                          (set_timers (remove_nth i (timers s)) s)))
          /\ (_lock s <> 0 ->
              timer_fire i s
              = Normal (set_timers (remove_nth i (timers s)
                                    ++ [(k, poll_delay)]) s))).
Proof.
  intros Hc Hl t k.
  unfold beginTransaction, _wait, check. rewrite Hc.
  cbn [_lock set_installed set_currentTransaction set_finished].
  apply Z.eqb_neq in Hl. rewrite Hl.
  eexists. split; [reflexivity|].
  split; [reflexivity|]. split; [reflexivity|]. split; [reflexivity|].
  split.
  - intros [[o m] a]. reflexivity.
  - intros s i d Hn. unfold timer_fire, check. rewrite Hn.
    cbn [_lock set_timers]. split; intros Hs.
    + rewrite Hs. reflexivity.
    + apply Z.eqb_neq in Hs. rewrite Hs. reflexivity.
Qed.

Lemma begin_waits_for_outstanding_locks_witness :
  exists st1,
    beginTransaction [VFun (FUser 1)] (set_lock 2 init) = Normal st1
    /\ out st1 = []
    /\ timers st1 = [(KBegin 0 (VFun (FUser 1)), poll_delay)]
    /\ currentTransaction st1 = Some Connection
    /\ timer_fire 0 (set_lock 0 st1)
       = Normal (emit (Exec "BEGIN;" (EBegin 0 (VFun (FUser 1))))
                      (set_timers [] (set_lock 0 st1))).
Proof.
  assert (Hl : _lock (set_lock 2 init) <> 0) by (simpl; lia).
  destruct (begin_waits_for_outstanding_locks [VFun (FUser 1)]
              (set_lock 2 init) eq_refl Hl)
    as (st1 & Hb & Ho & Ht & Hc & _ & Hf).
  exists st1. repeat split; auto.
  assert (Hn : nth_error (timers (set_lock 0 st1)) 0
               = Some (KBegin 0 (VFun (FUser 1)), poll_delay)).
  { cbn [timers set_lock]. rewrite Ht. reflexivity. }
  destruct (Hf (set_lock 0 st1) 0%nat poll_delay Hn) as (H0 & _).
  rewrite (H0 eq_refl). cbn [timers set_lock]. rewrite Ht. reflexivity.
Defined.

(** ** [wrapObject] and the options of the constructor *)





(** X13.  What lines 27-38 of the constructor do with the options: an
    options object without [database] makes line 30 throw on
    [serialize]; an exception of [db.serialize()] is the exception of
    the constructor; with a function as [opts.exec] the connection's own
    [exec] is not looked at; without one, a connection that has no [exec]
    makes line 37 throw. *)
Theorem constructor_options (opts : Ctor.JsVal) :
  (Ctor.get opts "database" = Ctor.Ok Ctor.Undefined ->
   Ctor.TransactionDatabase opts
   = Ctor.Throw (TypeError "Cannot read property serialize"))
  /\ (forall db e,
        Ctor.get opts "database" = Ctor.Ok db ->
        Ctor.get db "serialize" = Ctor.Ok (Ctor.Fn (Some e)) ->
        Ctor.TransactionDatabase opts = Ctor.Throw e)
  /\ (forall db f,
        Ctor.get opts "database" = Ctor.Ok db ->
        Ctor.get db "serialize" = Ctor.Ok (Ctor.Fn None) ->
        Ctor.get opts "exec" = Ctor.Ok (Ctor.Fn f) ->
        Ctor.prelude opts = Ctor.Ok (Ctor.Fn None))
  /\ (forall db,
        Ctor.get opts "database" = Ctor.Ok db ->
        Ctor.get db "serialize" = Ctor.Ok (Ctor.Fn None) ->
        Ctor.get opts "exec" = Ctor.Ok Ctor.Undefined ->
        Ctor.get db "exec" = Ctor.Ok Ctor.Undefined ->
        Ctor.prelude opts
        = Ctor.Throw (TypeError "Cannot read property bind")).
Proof.
  unfold Ctor.TransactionDatabase, Ctor.prelude, Ctor.call_method.
  split; [|split; [|split]].
  - intros H. rewrite H. reflexivity.
  - intros db e H1 H2. rewrite H1. cbn [Ctor.rbind]. rewrite H2. reflexivity.
  - intros db f H1 H2 H3. rewrite H1. cbn [Ctor.rbind]. rewrite H2.
    cbn [Ctor.rbind Ctor.apply]. rewrite H3. reflexivity.
  - intros db H1 H2 H3 H4. rewrite H1. cbn [Ctor.rbind]. rewrite H2.
    cbn [Ctor.rbind Ctor.apply]. rewrite H3.
    cbn [Ctor.rbind Ctor.truthy andb]. rewrite H4. reflexivity.
Qed.

Lemma constructor_options_witness :
  Ctor.TransactionDatabase
    (Ctor.Obj Ctor.ObjectProto
       [("connection", Ctor.Obj Ctor.ObjectProto
                         [("serialize", Ctor.Fn None)])])
  = Ctor.Throw (TypeError "Cannot read property serialize")
  /\ Ctor.TransactionDatabase
       (Ctor.Obj Ctor.ObjectProto
          [("database", Ctor.Obj Ctor.ObjectProto
                          [("serialize", Ctor.Fn (Some (Error "closed")))])])
     = Ctor.Throw (Error "closed")
  /\ Ctor.prelude
       (Ctor.Obj Ctor.ObjectProto
          [("database", Ctor.Obj Ctor.ObjectProto
                          [("serialize", Ctor.Fn None)]);
           ("exec", Ctor.Fn None)])
     = Ctor.Ok (Ctor.Fn None)
  /\ Ctor.prelude
       (Ctor.Obj Ctor.ObjectProto
          [("database", Ctor.Obj Ctor.ObjectProto
                          [("serialize", Ctor.Fn None)])])
     = Ctor.Throw (TypeError "Cannot read property bind").
Proof.
  split; [|split; [|split]].
  - apply constructor_options. reflexivity.
  - eapply (proj1 (proj2 (constructor_options _))); reflexivity.
  - eapply (proj1 (proj2 (proj2 (constructor_options _)))); reflexivity.
  - eapply (proj2 (proj2 (proj2 (constructor_options _)))); reflexivity.
Defined.

(** ** No call is lost *)

(** [st'] accounts for [c] more calls and [b] more [beginTransaction]s
    than [st]. *)
Definition accounts (c b : nat) (st st' : State) : Prop :=
  (dispatched_calls st' + queued_calls st'
   = dispatched_calls st + queued_calls st + c)%nat
  /\ (List.length (finished st') + queued_begins st'
      = List.length (finished st) + queued_begins st + b)%nat.

Lemma accounts_trans c1 b1 c2 b2 s1 s2 s3 :
  accounts c1 b1 s1 s2 -> accounts c2 b2 s2 s3 ->
  accounts (c1 + c2) (b1 + b2) s1 s3.
Proof. unfold accounts. intros (A1 & B1) (A2 & B2). split; lia. Qed.

Lemma accounts_same st st' :
  filter isDispatched (out st') = filter isDispatched (out st) ->
  queue st' = queue st ->
  finished st' = finished st ->
  accounts 0 0 st st'.
Proof.
  intros Ho Hq Hf.
  unfold accounts, dispatched_calls, queued_calls, queued_begins.
  rewrite Ho, Hq, Hf. split; lia.
Qed.

Lemma same_out_check k st :
  filter isDispatched (out (final (check k st)))
  = filter isDispatched (out st).
Proof.
  unfold check. destruct (_lock st =? 0); [|reflexivity].
  destruct k; simpl; rewrite filter_app; simpl; apply app_nil_r.
Qed.

Lemma accounts_check k st : accounts 0 0 st (final (check k st)).
Proof.
  apply accounts_same.
  - apply same_out_check.
  - apply queue_check.
  - apply same_check.
Qed.

Lemma same_out_on_db_error st :
  filter isDispatched (out (final (on_db_error st)))
  = filter isDispatched (out st).
Proof.
  unfold on_db_error.
  destruct (db_currentTransaction st); auto.
  destruct (installed st); auto.
  destruct (is_finished n st); auto.
  apply same_out_check.
Qed.

Lemma same_out_invoke f : forall args st,
  filter isDispatched (out (final (invoke f args st)))
  = filter isDispatched (out st).
Proof.
  induction f using Func_Value_ind
    with (P := fun v => forall args st,
                 filter isDispatched (out (final (call v args st)))
                 = filter isDispatched (out st));
    intros args st; simpl; auto.
  - rewrite filter_app. simpl. apply app_nil_r.
  - destruct (truthy (hd VUndefined args)); auto.
    unfold db_emit_error. rewrite same_out_on_db_error.
    simpl. rewrite filter_app. simpl. apply app_nil_r.
  - destruct (_lock st <? 1); auto.
    specialize (IHf args (set_lock (_lock st - 1) st)).
    destruct orig; auto.
Qed.

Lemma accounts_invoke f args st : accounts 0 0 st (final (invoke f args st)).
Proof.
  apply accounts_same.
  - apply same_out_invoke.
  - apply queue_invoke.
  - apply same_invoke.
Qed.

Lemma accounts_call v args st : accounts 0 0 st (final (call v args st)).
Proof.
  destruct v; try (apply accounts_same; reflexivity).
  apply accounts_invoke.
Qed.

Lemma accounts_beginTransaction args st :
  accounts 0 1 st (final (beginTransaction args st)).
Proof.
  unfold beginTransaction. destruct (currentTransaction st).
  - unfold accounts, dispatched_calls, queued_calls, queued_begins.
    cbn [final out queue finished set_queue].
    rewrite !filter_app, !length_app. simpl. split; lia.
  - change 0%nat with (0 + 0)%nat at 1. change 1%nat with (1 + 0)%nat.
    eapply accounts_trans; [|apply accounts_check].
    unfold accounts, dispatched_calls, queued_calls, queued_begins.
    cbn [out queue finished set_installed set_currentTransaction
           set_finished].
    rewrite length_app. simpl. split; lia.
Qed.

Lemma filter_no_begin items :
  existsb isBegin items = false ->
  filter isBegin items = []
  /\ filter (fun item => negb (isBegin item)) items = items.
Proof.
  induction items as [|item items IH]; intros H; simpl in *; auto.
  destruct (isBegin item); simpl in *; [discriminate|].
  destruct (IH H) as (-> & ->). auto.
Qed.

Lemma dispatched_effects_of items :
  existsb isBegin items = false ->
  List.length (filter isDispatched (flat_map effect_of items))
  = List.length items.
Proof.
  induction items as [|item items IH]; intros H; simpl in *; auto.
  destruct item as [a|l o m a]; simpl in *; [discriminate|].
  rewrite IH by exact H. reflexivity.
Qed.

Lemma accounts_runQueue st : accounts 0 0 st (final (_runQueue st)).
Proof.
  unfold _runQueue. rewrite runQueue_loop_drain by reflexivity.
  destruct (split_at_begin (queue st)) as [[pre b] post] eqn:Hs. cbv zeta.
  destruct (split_at_begin_parts _ _ _ _ Hs) as (Hq & Hpre & Hpost).
  destruct (filter_no_begin pre Hpre) as (Fb & Fo).
  pose proof (dispatched_effects_of pre Hpre) as Hd.
  assert (K : accounts 0 0 st
                (set_queue (begin_entry b ++ post) (dispatch_all pre st))).
  { unfold accounts, dispatched_calls, queued_calls, queued_begins.
    cbn [out queue finished set_queue].
    rewrite out_dispatch_all, finished_dispatch_all, Hq.
    rewrite !filter_app, !length_app, Fb, Fo, Hd. cbn [List.length].
    split; lia. }
  destruct b as [args|].
  - pose proof (accounts_beginTransaction args
                  (set_queue post (dispatch_all pre st))) as B.
    unfold accounts, dispatched_calls, queued_calls, queued_begins in *.
    cbn [out queue finished set_queue begin_entry app filter isBegin negb
           List.length] in K.
    cbn [out queue finished set_queue] in B.
    destruct K as (K1 & K2). destruct B as (B1 & B2). split; lia.
  - rewrite (Hpost eq_refl) in *. exact K.
Qed.

Lemma accounts_finishTransaction t e cb st :
  accounts 0 0 st (final (finishTransaction t e cb st)).
Proof.
  unfold finishTransaction.
  set (s1 := set_currentTransaction None _).
  assert (K1 : accounts 0 0 st s1).
  { unfold accounts, dispatched_calls, queued_calls, queued_begins, s1.
    cbn [out queue finished set_currentTransaction set_finished].
    rewrite length_set_nth. split; lia. }
  pose proof (accounts_runQueue s1) as K2.
  destruct (_runQueue s1) as [s2|x s2]; cbn [bind final] in *.
  - pose proof (accounts_call cb [e] s2) as K3.
    apply (accounts_trans 0 0 0 0 _ _ _ K1).
    apply (accounts_trans 0 0 0 0 _ _ _ K2 K3).
  - apply (accounts_trans 0 0 0 0 _ _ _ K1 K2).
Qed.

Lemma accounts_rollback t cb st : accounts 0 0 st (final (rollback t cb st)).
Proof.
  unfold rollback. destruct (is_finished t st);
    [apply accounts_call | apply accounts_check].
Qed.

Lemma accounts_commit t cb st : accounts 0 0 st (final (commit t cb st)).
Proof.
  unfold commit. destruct (is_finished t st);
    [apply accounts_call | apply accounts_check].
Qed.

Lemma accounts_refl st : accounts 0 0 st st.
Proof. unfold accounts. split; lia. Qed.

Lemma accounts_step ev st :
  accounts (one_if (isCall ev)) (one_if (isBeginCall ev)) st
           (final (step ev st)).
Proof.
  destruct ev; cbn [step isCall isBeginCall one_if].
  - unfold wrapDbMethod, accounts, dispatched_calls, queued_calls,
      queued_begins.
    destruct (currentTransaction st); cbn [final out queue finished emit
                                             set_queue].
    + rewrite !filter_app, !length_app. simpl. split; lia.
    + unfold lock_if. destruct (mem method lockMethods);
        cbn [out queue finished set_lock];
        rewrite filter_app, length_app; simpl; split; lia.
  - apply accounts_beginTransaction.
  - unfold handle_commit. destruct (installed st);
      [apply accounts_commit | apply accounts_refl].
  - unfold handle_rollback. destruct (installed st);
      [apply accounts_rollback | apply accounts_refl].
  - unfold timer_fire. destruct (nth_error (timers st) i) as [[k d]|];
      [|apply accounts_refl].
    apply (accounts_trans 0 0 0 0 _
             (set_timers (remove_nth i (timers st)) st));
      [apply accounts_same; reflexivity | apply accounts_check].
  - destruct k; cbn [exec_callback].
    + destruct (truthy err); apply accounts_call.
    + destruct (truthy err); [|apply accounts_finishTransaction].
      unfold handle_rollback. destruct (installed st);
        [apply accounts_rollback | apply accounts_refl].
    + apply accounts_finishTransaction.
  - apply accounts_invoke.
  - apply accounts_same;
      [apply same_out_on_db_error | apply queue_on_db_error
       | apply same_on_db_error].
Qed.

(** X14.  No accepted call is lost or made twice: after any sequence of
    turns, the calls of wrapped methods that have reached the driver and
    those still queued are together exactly the calls that were made,
    and the transactions begun and the [beginTransaction] calls still
    queued are together exactly the calls of [beginTransaction]. *)
Theorem every_call_is_dispatched_or_queued (evs : list Event) :
  forall st,
    (dispatched_calls (run evs st) + queued_calls (run evs st)
     = dispatched_calls st + queued_calls st
       + List.length (filter isCall evs))%nat
    /\ (List.length (finished (run evs st)) + queued_begins (run evs st)
        = List.length (finished st) + queued_begins st
          + List.length (filter isBeginCall evs))%nat.
Proof.
  induction evs as [|ev evs IH]; intros st.
  - simpl. split; lia.
  - cbn [run filter].
    destruct (IH (final (step ev st))) as (A & B).
    destruct (accounts_step ev st) as (A1 & B1).
    rewrite A, B, A1, B1.
    destruct (isCall ev), (isBeginCall ev); cbn [one_if List.length];
      split; lia.
Qed.

(** ** A completion that comes after the next transaction has begun *)

Lemma nth_set_nth_other (l : list bool) : forall t u,
  t <> u -> nth u (set_nth t true l) false = nth u l false.
Proof.
  induction l as [|x l IH]; intros [|t] [|u] H; simpl; auto.
  congruence.
Qed.

(** X15.  [finishTransaction] clears the current transaction whichever
    activation it belongs to.  So when the ROLLBACK (or COMMIT) of an
    earlier activation completes while a later transaction is open, the
    later transaction stays unfinished and keeps the handle, but is no
    longer current: the queue is drained and the next calls of wrapped
    methods are dispatched at once instead of being queued. *)
Theorem late_completion_ends_deferral
  (t t' c : nat) (r : Value) (st : State) :
  installed st = Some t' ->
  t <> t' ->
  is_finished t' st = false ->
  existsb isBegin (queue st) = false ->
  exists st2,
    exec_callback (ERollback t (VFun (FUser c))) r st = Normal st2
    /\ currentTransaction st2 = None
    /\ installed st2 = Some t'
    /\ is_finished t' st2 = false
    /\ queue st2 = []
    /\ out st2 = out st ++ flat_map effect_of (queue st) ++ [Called c [r]]
    /\ (forall o m a,
          wrapDbMethod o m a st2
          = Normal (emit (Dispatched o m (wrapped_args m a))
                         (lock_if (mem m lockMethods) st2))).
Proof.
  intros Hi Hne Hf Hq.
  cbn [exec_callback]. unfold finishTransaction, _runQueue.
  rewrite runQueue_loop_drain by reflexivity.
  cbn [queue set_finished set_currentTransaction].
  rewrite (split_at_begin_none _ Hq). cbv zeta.
  eexists. split; [reflexivity|].
  unfold wrapDbMethod, is_finished.
  cbn [out queue currentTransaction installed finished emit set_queue].
  rewrite currentTransaction_dispatch_all, installed_dispatch_all,
    finished_dispatch_all, out_dispatch_all.
  cbn [out currentTransaction installed finished set_currentTransaction
         set_finished].
  rewrite nth_set_nth_other by exact Hne.
  repeat split; auto. rewrite <- app_assoc. reflexivity.
Qed.

Lemma late_completion_ends_deferral_witness :
  exists st2,
    exec_callback (ERollback 0 (VFun (FUser 3))) (VError "no transaction")
      second_begun_first_pending = Normal st2
    /\ currentTransaction st2 = None
    /\ installed st2 = Some 1%nat
    /\ is_finished 1 st2 = false
    /\ queue st2 = []
    /\ out st2 = out second_begun_first_pending
                 ++ flat_map effect_of (queue second_begun_first_pending)
                 ++ [Called 3 [VError "no transaction"]]
    /\ (forall o m a,
          wrapDbMethod o m a st2
          = Normal (emit (Dispatched o m (wrapped_args m a))
                         (lock_if (mem m lockMethods) st2))).
Proof.
  apply (late_completion_ends_deferral 0 1 3 (VError "no transaction")
           second_begun_first_pending);
    [reflexivity | discriminate | reflexivity | reflexivity].
Defined.
